(** * AGC Block I simulator (yaAGC-Block1-Pultorak): driver and monitor

    A shallow embedding of [AGCmain.cpp] (control logic [genAGCStates],
    the monitor commands and the driver loop of [main]) and of [MON.cpp]
    (monitor switches and the indicator part of [MON::displayAGC]).

    The subsystems the two files call into (CPM, CLK, SCL, TPG, ADR, MEM)
    live in other translation units; they enter the development as the
    fields of the interface record [Subsystems]. *)

From Stdlib Require Import ZArith List Bool String Ascii Lia.
From Equations Require Import Equations.
Import ListNotations.
Local Open Scope Z_scope.

(** ** Data *)

(** [cpType] is a C enumeration; its values are integers. *)
Definition cpType := Z.

(** The monitor switches of [MON.cpp], all of C type [unsigned]. *)
Record MON := mkMON {
  PURST : Z;
  RUN : Z;
  STEP : Z;
  INST : Z;
  FCLK : Z;
  SA : Z;
  SCL_ENAB : Z }.

(** The globals the two files read and write.  Arrays are functions of the
    index; [sub] stands for the state of the subsystems whose sources are
    elsewhere (registers, memory, scaler). *)
Record AGC (Sub : Type) := mkAGC {
  glbl_READ_BUS : Z;
  glbl_WRITE_BUS : Z;
  MEM_DATA_BUS : Z;
  MEM_PARITY_BUS : Z;
  ALU_glbl_BUS : Z;
  glbl_cp : nat -> cpType;
  mon : MON;
  pcUp : nat -> Z;
  pcDn : nat -> Z;
  rupt : nat -> Z;
  sub : Sub }.

Arguments mkAGC {Sub}.
Arguments glbl_READ_BUS {Sub}.
Arguments glbl_WRITE_BUS {Sub}.
Arguments MEM_DATA_BUS {Sub}.
Arguments MEM_PARITY_BUS {Sub}.
Arguments ALU_glbl_BUS {Sub}.
Arguments glbl_cp {Sub}.
Arguments mon {Sub}.
Arguments pcUp {Sub}.
Arguments pcDn {Sub}.
Arguments rupt {Sub}.
Arguments sub {Sub}.

(** What a run leaves behind, in program order: one event per call into a
    subsystem and per line printed. *)
Inductive Event :=
| EvCPM
| EvR (p : cpType)
| EvR_ALU (p : cpType)
| EvR_ALU_OR (p : cpType)
| EvW (p : cpType)
| EvWP_SCL
| EvWP_F17
| EvWP_F13
| EvWP_F10
| EvWP_TPG
| EvClk
| EvDisplay
| EvWriteMemory (addr data : Z)
| EvPrint (msg : string).

(** The interface of the absent translation units: constants of [SEQ.h] and
    [TPG.h], and the functions [genAGCStates] and [main] call.  The register
    reads ([read()], [getEffectiveAddress], [readMemory]) are queries on the
    subsystem state. *)
Record Subsystems (Sub : Type) := mkSubsystems {
  MAXPULSES : nat;
  NO_PULSE : cpType;
  TP1 : Z;
  TP12 : Z;
  STBY : Z;
  WAIT : Z;
  controlPulseMatrix : AGC Sub -> AGC Sub;
  doexecR : cpType -> AGC Sub -> AGC Sub;
  doexecR_ALU : cpType -> AGC Sub -> AGC Sub;
  doexecR_ALU_OR : cpType -> AGC Sub -> AGC Sub;
  doexecW : cpType -> AGC Sub -> AGC Sub;
  doexecWP_SCL : AGC Sub -> AGC Sub;
  doexecWP_F17 : AGC Sub -> AGC Sub;
  doexecWP_F13 : AGC Sub -> AGC Sub;
  doexecWP_F10 : AGC Sub -> AGC Sub;
  doexecWP_TPG : AGC Sub -> AGC Sub;
  clkAGC : AGC Sub -> AGC Sub;
  register_SG_read : Sub -> Z;
  register_SNI_read : Sub -> Z;
  register_OUT1_read : Sub -> Z;
  getEffectiveAddress : Sub -> Z;
  readMemory : Z -> Sub -> Z;
  writeMemory : Z -> Z -> AGC Sub -> AGC Sub }.

Arguments MAXPULSES {Sub}.
Arguments NO_PULSE {Sub}.
Arguments TP1 {Sub}.
Arguments TP12 {Sub}.
Arguments STBY {Sub}.
Arguments WAIT {Sub}.
Arguments controlPulseMatrix {Sub}.
Arguments doexecR {Sub}.
Arguments doexecR_ALU {Sub}.
Arguments doexecR_ALU_OR {Sub}.
Arguments doexecW {Sub}.
Arguments doexecWP_SCL {Sub}.
Arguments doexecWP_F17 {Sub}.
Arguments doexecWP_F13 {Sub}.
Arguments doexecWP_F10 {Sub}.
Arguments doexecWP_TPG {Sub}.
Arguments clkAGC {Sub}.
Arguments register_SG_read {Sub}.
Arguments register_SNI_read {Sub}.
Arguments register_OUT1_read {Sub}.
Arguments getEffectiveAddress {Sub}.
Arguments readMemory {Sub}.
Arguments writeMemory {Sub}.

(** ** Field updates *)

Definition set_READ_BUS {Sub} (v : Z) (s : AGC Sub) : AGC Sub :=
  mkAGC v (glbl_WRITE_BUS s) (MEM_DATA_BUS s) (MEM_PARITY_BUS s)
        (ALU_glbl_BUS s) (glbl_cp s) (mon s) (pcUp s) (pcDn s) (rupt s) (sub s).

Definition set_WRITE_BUS {Sub} (v : Z) (s : AGC Sub) : AGC Sub :=
  mkAGC (glbl_READ_BUS s) v (MEM_DATA_BUS s) (MEM_PARITY_BUS s)
        (ALU_glbl_BUS s) (glbl_cp s) (mon s) (pcUp s) (pcDn s) (rupt s) (sub s).

Definition set_MEM_DATA_BUS {Sub} (v : Z) (s : AGC Sub) : AGC Sub :=
  mkAGC (glbl_READ_BUS s) (glbl_WRITE_BUS s) v (MEM_PARITY_BUS s)
        (ALU_glbl_BUS s) (glbl_cp s) (mon s) (pcUp s) (pcDn s) (rupt s) (sub s).

Definition set_MEM_PARITY_BUS {Sub} (v : Z) (s : AGC Sub) : AGC Sub :=
  mkAGC (glbl_READ_BUS s) (glbl_WRITE_BUS s) (MEM_DATA_BUS s) v
        (ALU_glbl_BUS s) (glbl_cp s) (mon s) (pcUp s) (pcDn s) (rupt s) (sub s).

Definition set_ALU_BUS {Sub} (v : Z) (s : AGC Sub) : AGC Sub :=
  mkAGC (glbl_READ_BUS s) (glbl_WRITE_BUS s) (MEM_DATA_BUS s)
        (MEM_PARITY_BUS s) v (glbl_cp s) (mon s) (pcUp s) (pcDn s) (rupt s)
        (sub s).

Definition set_glbl_cp {Sub} (cp : nat -> cpType) (s : AGC Sub) : AGC Sub :=
  mkAGC (glbl_READ_BUS s) (glbl_WRITE_BUS s) (MEM_DATA_BUS s)
        (MEM_PARITY_BUS s) (ALU_glbl_BUS s) cp (mon s) (pcUp s) (pcDn s)
        (rupt s) (sub s).

Definition set_sub {Sub} (r : Sub) (s : AGC Sub) : AGC Sub :=
  mkAGC (glbl_READ_BUS s) (glbl_WRITE_BUS s) (MEM_DATA_BUS s)
        (MEM_PARITY_BUS s) (ALU_glbl_BUS s) (glbl_cp s) (mon s) (pcUp s)
        (pcDn s) (rupt s) r.

Definition set_mon {Sub} (m : MON) (s : AGC Sub) : AGC Sub :=
  mkAGC (glbl_READ_BUS s) (glbl_WRITE_BUS s) (MEM_DATA_BUS s)
        (MEM_PARITY_BUS s) (ALU_glbl_BUS s) (glbl_cp s) m (pcUp s) (pcDn s)
        (rupt s) (sub s).

Definition set_pcUp {Sub} (a : nat -> Z) (s : AGC Sub) : AGC Sub :=
  mkAGC (glbl_READ_BUS s) (glbl_WRITE_BUS s) (MEM_DATA_BUS s)
        (MEM_PARITY_BUS s) (ALU_glbl_BUS s) (glbl_cp s) (mon s) a (pcDn s)
        (rupt s) (sub s).

Definition set_pcDn {Sub} (a : nat -> Z) (s : AGC Sub) : AGC Sub :=
  mkAGC (glbl_READ_BUS s) (glbl_WRITE_BUS s) (MEM_DATA_BUS s)
        (MEM_PARITY_BUS s) (ALU_glbl_BUS s) (glbl_cp s) (mon s) (pcUp s) a
        (rupt s) (sub s).

Definition set_rupt {Sub} (a : nat -> Z) (s : AGC Sub) : AGC Sub :=
  mkAGC (glbl_READ_BUS s) (glbl_WRITE_BUS s) (MEM_DATA_BUS s)
        (MEM_PARITY_BUS s) (ALU_glbl_BUS s) (glbl_cp s) (mon s) (pcUp s)
        (pcDn s) a (sub s).

Definition set_RUN (v : Z) (m : MON) : MON :=
  mkMON (PURST m) v (STEP m) (INST m) (FCLK m) (SA m) (SCL_ENAB m).

Definition set_STEP (v : Z) (m : MON) : MON :=
  mkMON (PURST m) (RUN m) v (INST m) (FCLK m) (SA m) (SCL_ENAB m).

(** ** Traced state transformers *)

Definition Step (S : Type) := S -> list Event * S.

Definition exec {S} (e : Event) (f : S -> S) : Step S :=
  fun s => ([e], f s).

Definition assign {S} (f : S -> S) : Step S :=
  fun s => ([], f s).

Definition and_then {S} (f g : Step S) : Step S :=
  fun s => let (t1, s1) := f s in
           let (t2, s2) := g s1 in (t1 ++ t2, s2).

Notation "f ;; g" := (and_then f g) (at level 61, right associativity).

(** ** [genAGCStates] (AGCmain.cpp, CONTROL LOGIC) *)

Section ControlLogic.

Context {Sub : Type} (E : Subsystems Sub).

(** [for (i = 0; i < MAXPULSES && glbl_cp[i] != NO_PULSE; i++) h(glbl_cp[i]);]
    The first argument is [MAXPULSES - i], the number of cells the guard
    [i < MAXPULSES] still admits; the cell is read from the state current
    at the iteration, as the C loop does. *)
Fixpoint sweep (ev : cpType -> Event) (h : cpType -> AGC Sub -> AGC Sub)
  (left : nat) (i : nat) : Step (AGC Sub) :=
  fun s =>
    match left with
    | O => ([], s)
    | S left' =>
        let p := glbl_cp s i in
        if p =? NO_PULSE E then ([], s)
        else (exec (ev p) (h p) ;; sweep ev h left' (S i)) s
    end.

(** Step 2 of the function and the three bus clears that precede the
    sweeps. *)
Definition phase_clear : Step (AGC Sub) :=
  exec EvCPM (controlPulseMatrix E) ;;
  assign (set_READ_BUS 0) ;;
  assign (set_MEM_DATA_BUS 0) ;;
  assign (set_MEM_PARITY_BUS 0).

Definition phase_R : Step (AGC Sub) :=
  sweep EvR (doexecR E) (MAXPULSES E) 0.

Definition phase_ALU : Step (AGC Sub) :=
  assign (set_ALU_BUS 0) ;;
  sweep EvR_ALU (doexecR_ALU E) (MAXPULSES E) 0.

(** [BUS::glbl_WRITE_BUS = BUS::glbl_READ_BUS;] *)
Definition phase_OR_init : Step (AGC Sub) :=
  assign (fun s => set_WRITE_BUS (glbl_READ_BUS s) s).

Definition phase_OR : Step (AGC Sub) :=
  sweep EvR_ALU_OR (doexecR_ALU_OR E) (MAXPULSES E) 0.

Definition phase_W : Step (AGC Sub) :=
  sweep EvW (doexecW E) (MAXPULSES E) 0.

(** "Always execute these pulses." *)
Definition phase_always : Step (AGC Sub) :=
  exec EvWP_SCL (doexecWP_SCL E) ;;
  exec EvWP_F17 (doexecWP_F17 E) ;;
  exec EvWP_F13 (doexecWP_F13 E) ;;
  exec EvWP_F10 (doexecWP_F10 E) ;;
  exec EvWP_TPG (doexecWP_TPG E).

Definition genAGCStates : Step (AGC Sub) :=
  phase_clear ;; phase_R ;; phase_ALU ;; phase_OR_init ;; phase_OR ;;
  phase_W ;; phase_always.



(** The calls [h(p)] for the pulses [p] of a list, first to last. *)
Definition run_pulses (h : cpType -> AGC Sub -> AGC Sub) (l : list cpType)
  (s : AGC Sub) : AGC Sub :=
  fold_left (fun s' p => h p s') l s.

(** The pulses a sweep takes from [glbl_cp]: from cell [i] on, each cell
    read once the handler has run on the cells before it, up to the first
    [NO_PULSE] read or to the bound. *)
Fixpoint dispatched (h : cpType -> AGC Sub -> AGC Sub) (left i : nat)
  (s : AGC Sub) : list cpType :=
  match left with
  | O => []
  | S left' =>
      let p := glbl_cp s i in
      if p =? NO_PULSE E then []
      else p :: dispatched h left' (S i) (h p s)
  end.

(** [l] is what a sweep with handler [h], started in state [x], takes from
    [glbl_cp]: its [j]-th pulse is cell [j] as the calls for the pulses
    before it have left it; none is [NO_PULSE]; there are [MAXPULSES] at
    most; and the sweep ends at the bound or at a cell that reads
    [NO_PULSE]. *)
Definition taken (h : cpType -> AGC Sub -> AGC Sub) (x : AGC Sub)
  (l : list cpType) : Prop :=
  l = map (fun j => glbl_cp (run_pulses h (firstn j l) x) j)
          (List.seq 0 (List.length l))
  /\ Forall (fun p => p <> NO_PULSE E) l
  /\ (List.length l <= MAXPULSES E)%nat
  /\ (List.length l = MAXPULSES E
      \/ glbl_cp (run_pulses h l x) (List.length l) = NO_PULSE E).

(** The state in which each part of [genAGCStates] starts. *)
Definition at_R (s : AGC Sub) : AGC Sub := snd (phase_clear s).
Definition at_ALU (s : AGC Sub) : AGC Sub := snd (phase_R (at_R s)).
Definition at_OR_init (s : AGC Sub) : AGC Sub := snd (phase_ALU (at_ALU s)).
Definition at_OR (s : AGC Sub) : AGC Sub :=
  snd (phase_OR_init (at_OR_init s)).
Definition at_W (s : AGC Sub) : AGC Sub := snd (phase_OR (at_OR s)).
Definition at_always (s : AGC Sub) : AGC Sub := snd (phase_W (at_W s)).

End ControlLogic.

(** ** The driver: file-scope variables of [AGCmain.cpp] and [main] *)

Record Driver (Sub : Type) := mkDriver {
  agc : AGC Sub;
  filename : string;
  breakpointEnab : bool;
  breakpoint : Z;
  watchEnab : bool;
  watchAddr : Z;
  oldWatchValue : Z;
  singleClock : bool;
  dskyChanged : bool;
  displayTimeout : bool;
  clockCounter : Z;
  displayOnce : bool }.

Arguments mkDriver {Sub}.
Arguments agc {Sub}.
Arguments filename {Sub}.
Arguments breakpointEnab {Sub}.
Arguments breakpoint {Sub}.
Arguments watchEnab {Sub}.
Arguments watchAddr {Sub}.
Arguments oldWatchValue {Sub}.
Arguments singleClock {Sub}.
Arguments dskyChanged {Sub}.
Arguments displayTimeout {Sub}.
Arguments clockCounter {Sub}.
Arguments displayOnce {Sub}.

Definition set_agc {Sub} (a : AGC Sub) (d : Driver Sub) : Driver Sub :=
  mkDriver a (filename d) (breakpointEnab d) (breakpoint d) (watchEnab d)
           (watchAddr d) (oldWatchValue d) (singleClock d) (dskyChanged d)
           (displayTimeout d) (clockCounter d) (displayOnce d).

Definition set_filename {Sub} (f : string) (d : Driver Sub) : Driver Sub :=
  mkDriver (agc d) f (breakpointEnab d) (breakpoint d) (watchEnab d)
           (watchAddr d) (oldWatchValue d) (singleClock d) (dskyChanged d)
           (displayTimeout d) (clockCounter d) (displayOnce d).

Definition set_breakpoint {Sub} (en : bool) (b : Z) (d : Driver Sub)
  : Driver Sub :=
  mkDriver (agc d) (filename d) en b (watchEnab d)
           (watchAddr d) (oldWatchValue d) (singleClock d) (dskyChanged d)
           (displayTimeout d) (clockCounter d) (displayOnce d).

Definition set_oldWatchValue {Sub} (v : Z) (d : Driver Sub) : Driver Sub :=
  mkDriver (agc d) (filename d) (breakpointEnab d) (breakpoint d) (watchEnab d)
           (watchAddr d) v (singleClock d) (dskyChanged d)
           (displayTimeout d) (clockCounter d) (displayOnce d).

Definition set_singleClock {Sub} (b : bool) (d : Driver Sub) : Driver Sub :=
  mkDriver (agc d) (filename d) (breakpointEnab d) (breakpoint d) (watchEnab d)
           (watchAddr d) (oldWatchValue d) b (dskyChanged d)
           (displayTimeout d) (clockCounter d) (displayOnce d).

Definition set_display {Sub} (changed timeout : bool) (counter : Z)
  (once : bool) (d : Driver Sub) : Driver Sub :=
  mkDriver (agc d) (filename d) (breakpointEnab d) (breakpoint d) (watchEnab d)
           (watchAddr d) (oldWatchValue d) (singleClock d) changed
           timeout counter once.

(** [MON::RUN = 0;] and [MON::STEP = 0;] *)
Definition halt {Sub} (d : Driver Sub) : Driver Sub :=
  set_agc (set_mon (set_RUN 0 (mon (agc d))) (agc d)) d.

Definition release_step {Sub} (d : Driver Sub) : Driver Sub :=
  set_agc (set_mon (set_STEP 0 (mon (agc d))) (agc d)) d.

(** A C condition on an [unsigned]: nonzero is true. *)
Definition truthy (v : Z) : bool := negb (v =? 0).

(** Run a transformer of the machine inside the driver. *)
Definition on_agc {Sub} (f : Step (AGC Sub)) : Step (Driver Sub) :=
  fun d => let (t, a) := f (agc d) in (t, set_agc a d).

Definition inspect {A} (a : A) : {b : A | a = b} := exist _ a eq_refl.

Section DriverLoop.

Context {Sub : Type} (E : Subsystems Sub).

(** [if (breakpointEnab && breakpoint == ADR::getEffectiveAddress())
      MON::RUN = 0;] *)
Definition breakpoint_check (d : Driver Sub) : Driver Sub :=
  if breakpointEnab d && (breakpoint d =? getEffectiveAddress E (sub (agc d)))
  then halt d else d.

(** [if (watchEnab) { ... }] *)
Definition watch_check (d : Driver Sub) : Driver Sub :=
  if watchEnab d then
    let newWatchValue := readMemory E (watchAddr d) (sub (agc d)) in
    let d1 := if negb (newWatchValue =? oldWatchValue d) then halt d else d in
    set_oldWatchValue newWatchValue d1
  else d.

(** [CLK::clkAGC(); singleClock = false; genAGCStates();] *)
Definition clock_and_generate : Step (Driver Sub) :=
  on_agc (exec EvClk (clkAGC E)) ;;
  assign (set_singleClock false) ;;
  on_agc (genAGCStates E).

(** The body of the [do ... while] of [main], the counter apart. *)
Definition tick : Step (Driver Sub) :=
  clock_and_generate ;;
  assign breakpoint_check ;;
  assign watch_check.

(** [MON::FCLK && MON::RUN] of the loop condition. *)
Definition fast_running (d : Driver Sub) : bool :=
  truthy (FCLK (mon (agc d))) && truthy (RUN (mon (agc d))).

(** [int genStateCntr = 100;
     do { tick; genStateCntr--; ... }
     while (MON::FCLK && MON::RUN && genStateCntr > 0);]
    The argument is the value of [genStateCntr] when the body is entered. *)
Equations? batch (genStateCntr : Z) (d : Driver Sub)
  : list Event * Driver Sub by wf (Z.to_nat genStateCntr) lt :=
  batch c d with inspect (tick d) => {
    | exist _ (t1, d1) _ with inspect (fast_running d1 && (0 <? c - 1)) => {
      | exist _ true _ => let (t2, d2) := batch (c - 1) d1 in (t1 ++ t2, d2)
      | exist _ false _ => (t1, d1) } }.
Proof.
  apply andb_prop in e0. destruct e0 as [_ Hc].
  apply Z.ltb_lt in Hc. lia.
Qed.

(** [updateAGCDisplay]; [elapsed] is the answer of [checkElapsedTime(2)],
    which reads the host clock. *)
Definition updateAGCDisplay (elapsed : bool) : Step (Driver Sub) :=
  fun d =>
    let timeout := if elapsed then true else displayTimeout d in
    let d0 := set_display (dskyChanged d) timeout (clockCounter d)
                          (displayOnce d) d in
    let SG := register_SG_read E (sub (agc d)) in
    if truthy (FCLK (mon (agc d))) then
      if truthy (RUN (mon (agc d))) then
        if timeout || dskyChanged d then
          let counter := clockCounter d + 1 in
          if ((SG =? TP12 E) && (register_SNI_read E (sub (agc d)) =? 1))
             || (SG =? STBY E) || (500 <? counter) || dskyChanged d
          then ([EvDisplay], set_display false false 0 (displayOnce d) d)
          else ([], set_display (dskyChanged d) timeout counter
                                (displayOnce d) d)
        else ([], d0)
      else
        if SG =? WAIT E then
          if negb (displayOnce d)
          then ([EvDisplay], set_display (dskyChanged d) timeout 0 true d)
          else ([], d0)
        else ([], set_display (dskyChanged d) timeout (clockCounter d) false d)
    else ([EvDisplay], d0).

(** [if (MON::STEP && TPG::register_SG.read() == TP1) MON::STEP = 0;] *)
Definition step_switch_check (d : Driver Sub) : Driver Sub :=
  if truthy (STEP (mon (agc d)))
     && (register_SG_read E (sub (agc d)) =? TP1 E)
  then release_step d else d.

(** One pass through the body of [while (!_kbhit())]. *)
Definition poll_iteration (elapsed : bool) : Step (Driver Sub) :=
  fun d =>
    let (t, d1) :=
      if truthy (FCLK (mon (agc d))) || singleClock d
      then (batch 100 ;; updateAGCDisplay elapsed) d
      else ([], d) in
    (t, step_switch_check d1).

(** The passes made before a key arrives, one per answer of the host
    clock. *)
Fixpoint poll_loop (clock : list bool) : Step (Driver Sub) :=
  match clock with
  | [] => fun d => ([], d)
  | elapsed :: rest => poll_iteration elapsed ;; poll_loop rest
  end.

End DriverLoop.

(** ** The C library calls of the monitor commands

    [atoi], [strtol] and [fscanf] are modelled after ISO C and the GNU C
    library, for which this port of the simulator is written: leading white
    space is skipped, an optional sign is read, then the longest run of
    digits of the base.  [int] and [unsigned] have 32 bits, [long] and
    [unsigned long] have 64. *)

Definition is_space (c : ascii) : bool :=
  let n := nat_of_ascii c in
  Nat.eqb n 32 || (Nat.leb 9 n && Nat.leb n 13).

Fixpoint skip_space (l : list ascii) : list ascii :=
  match l with
  | c :: r => if is_space c then skip_space r else l
  | [] => []
  end.

Definition digit_value (base : Z) (c : ascii) : option Z :=
  let n := Z.of_nat (nat_of_ascii c) - 48 in
  if (0 <=? n) && (n <? base) then Some n else None.

Fixpoint digits (base acc : Z) (l : list ascii) : Z * list ascii :=
  match l with
  | c :: r =>
      match digit_value base c with
      | Some v => digits base (acc * base + v) r
      | None => (acc, l)
      end
  | [] => (acc, [])
  end.

Definition read_sign (l : list ascii) : bool * list ascii :=
  match l with
  | "-"%char :: r => (true, r)
  | "+"%char :: r => (false, r)
  | _ => (false, l)
  end.

Definition LONG_MAX : Z := 2 ^ 63 - 1.
Definition LONG_MIN : Z := - 2 ^ 63.
Definition ULONG_MAX : Z := 2 ^ 64 - 1.

(** [strtol(s, 0, base)]: a value outside the range of [long] comes back as
    [LONG_MAX] or [LONG_MIN]. *)
Definition strtol (base : Z) (s : string) : Z :=
  let (neg, l) := read_sign (skip_space (list_ascii_of_string s)) in
  let (v, _) := digits base 0 l in
  Z.max LONG_MIN (Z.min LONG_MAX (if neg then - v else v)).

(** Conversion to [unsigned] (32 bits). *)
Definition to_unsigned (v : Z) : Z := v mod 2 ^ 32.

(** Conversion to [int]: the low 32 bits, in two's complement. *)
Definition to_int (v : Z) : Z := (v + 2 ^ 31) mod 2 ^ 32 - 2 ^ 31.

(** [atoi(s)] is [(int) strtol(s, 0, 10)]. *)
Definition atoi (s : string) : Z := to_int (strtol 10 s).

(** [strtoul] on a run of digits of value [v] read after the sign: a value
    above [ULONG_MAX] comes back as [ULONG_MAX], any other is negated in
    [unsigned long] when the sign is minus. *)
Definition strtoul_value (neg : bool) (v : Z) : Z :=
  if ULONG_MAX <? v then ULONG_MAX
  else (if neg then - v else v) mod 2 ^ 64.

Definition EOF : Z := -1.

(** One [%o] directive: the field is converted as [strtoul] does and the
    result stored in an [unsigned]. *)
Inductive conversion :=
| Converted (v : Z) (rest : list ascii)
| InputFailure
| MatchingFailure (rest : list ascii).

Definition scan_o (l : list ascii) : conversion :=
  match skip_space l with
  | [] => InputFailure
  | l0 =>
      let (neg, l1) := read_sign l0 in
      match l1 with
      | c :: _ =>
          match digit_value 8 c with
          | Some _ =>
              let (v, rest) := digits 8 0 l1 in
              Converted (to_unsigned (strtoul_value neg v)) rest
          | None => MatchingFailure l1
          end
      | [] => MatchingFailure []
      end
  end.

(** [fscanf(fp, "%o %o", &addr, &data)]: the result, the unread input, and
    the two variables, which keep their value when not assigned.  The
    white space of the format is subsumed by the skip of the second
    [%o]. *)
Definition fscanf_o_o (l : list ascii) (addr data : Z)
  : Z * list ascii * Z * Z :=
  match scan_o l with
  | InputFailure => (EOF, [], addr, data)
  | MatchingFailure r => (0, r, addr, data)
  | Converted a r1 =>
      match scan_o r1 with
      | Converted v r2 => (2, r2, a, v)
      | InputFailure => (1, [], a, data)
      | MatchingFailure r2 => (1, r2, a, data)
      end
  end.

Definition newline : string := String (ascii_of_nat 10) EmptyString.

(** ** Monitor commands (AGCmain.cpp, SIMULATION LOGIC)

    A command takes the line [getCommand] returns; prompts and echoes are
    left out, except in [loadMemory]. *)

(** Modelled from the spec: the extents of [CTR::pcUp], [CTR::pcDn] and
    [INT::rupt], declared in [CTR.h] and [INT.h], which are not part of the
    sources at hand; section 6 lists the request lines as
    [rupt[0..4]], [pcUp[0..6]], [pcDn[0..6]]. *)
Definition pcell_extent : Z := 7.
Definition rupt_extent : Z := 5.

(** [a[i] = v] on an array of [extent] cells; [None] is a store outside the
    array, which C leaves undefined. *)
Definition array_store (extent : Z) (a : nat -> Z) (i v : Z)
  : option (nat -> Z) :=
  if (0 <=? i) && (i <? extent)
  then Some (fun k => if Nat.eqb k (Z.to_nat i) then v else a k)
  else None.

Definition incrCntr {Sub} (line : string) (s : AGC Sub) : option (AGC Sub) :=
  let pc := atoi line in
  option_map (fun a => set_pcUp a s) (array_store pcell_extent (pcUp s) pc 1).

Definition decrCntr {Sub} (line : string) (s : AGC Sub) : option (AGC Sub) :=
  let pc := atoi line in
  option_map (fun a => set_pcDn a s) (array_store pcell_extent (pcDn s) pc 1).

Definition interrupt {Sub} (line : string) (s : AGC Sub) : option (AGC Sub) :=
  let i := atoi line - 1 in
  option_map (fun a => set_rupt a s) (array_store rupt_extent (rupt s) i 1).

(** [toggleBreakpoint]; the line is read only when a breakpoint is set. *)
Definition toggleBreakpoint {Sub} (line : string) (d : Driver Sub)
  : Driver Sub :=
  if negb (breakpointEnab d)
  then set_breakpoint true (to_unsigned (strtol 8 line)) d
  else set_breakpoint false (breakpoint d) d.

(** What a call of [loadMemory] comes to: its return, with the lines
    printed and the calls of [MEM::writeMemory] made; a run of the loop not
    ended within the calls of [fscanf] allowed; or a store past the end of
    [char fname[80]]. *)
Inductive loading (Sub : Type) :=
| Loaded (t : list Event) (d : Driver Sub)
| LoadUnended
| NameOverrun.

Arguments Loaded {Sub}.
Arguments LoadUnended {Sub}.
Arguments NameOverrun {Sub}.

Section LoadMemory.

Context {Sub : Type} (E : Subsystems Sub).

(** [while (fscanf(fp, "%o %o", &addr, &data) != EOF)
      MEM::writeMemory(addr, data);]
    [fscanf] consumes nothing on a matching failure, so the C loop need not
    end; [fuel] bounds the number of calls to [fscanf], and [None] is a run
    that has not ended within it. *)
Fixpoint load_records (fuel : nat) (input : list ascii) (addr data : Z)
  (s : AGC Sub) : option (list Event * AGC Sub) :=
  match fuel with
  | O => None
  | S fuel' =>
      let '(n, rest, addr', data') := fscanf_o_o input addr data in
      if n =? EOF then Some ([], s)
      else
        match load_records fuel' rest addr' data'
                           (writeMemory E addr' data' s) with
        | Some (t, s') => Some (EvWriteMemory addr' data' :: t, s')
        | None => None
        end
  end.

(** [loadMemory].  [fopen] maps a file name to its contents when the file
    can be opened for reading; [addr0] and [data0] are the indeterminate
    initial values of the two locals.  [strcat(fname, ".obj")] stores the
    name, the extension and the final NUL in [char fname[80]]: a line of
    more than 75 characters does not fit. *)
Definition loadMemory (fopen : string -> option string) (line : string)
  (addr0 data0 : Z) (fuel : nat) (d : Driver Sub) : loading Sub :=
  let d1 := set_filename line d in
  if Nat.ltb 75 (String.length line) then NameOverrun
  else
    let fname := (line ++ ".obj")%string in
    match fopen fname with
    | None =>
        Loaded [EvPrint newline;
                EvPrint "fopen failed:";
                EvPrint ("*** ERROR: Can't load memory for file: " ++ fname
                         ++ newline)] d1
    | Some contents =>
        match load_records fuel (list_ascii_of_string contents) addr0 data0
                           (agc d1) with
        | Some (t, a) =>
            Loaded ([EvPrint newline] ++ t
                    ++ [EvPrint ("Memory loaded." ++ newline)])
                   (set_agc a d1)
        | None => LoadUnended
        end
    end.

End LoadMemory.

(** The lines and calls of a run of [loadMemory] that returned. *)
Definition load_trace {Sub} (r : loading Sub) : option (list Event) :=
  match r with
  | Loaded t _ => Some t
  | LoadUnended | NameOverrun => None
  end.

(** ** [MON.cpp] *)

(** The initialisers of the monitor switches. *)
Definition MON_power_on : MON :=
  {| PURST := 1; RUN := 0; STEP := 0; INST := 1; FCLK := 0; SA := 0;
     SCL_ENAB := 1 |}.

Inductive MonVar :=
| MON_PURST | MON_RUN | MON_STEP | MON_INST | MON_FCLK | MON_SA
| MON_SCL_ENAB.

Definition mon_read (m : MON) (v : MonVar) : Z :=
  match v with
  | MON_PURST => PURST m
  | MON_RUN => RUN m
  | MON_STEP => STEP m
  | MON_INST => INST m
  | MON_FCLK => FCLK m
  | MON_SA => SA m
  | MON_SCL_ENAB => SCL_ENAB m
  end.

(** The registers [MON::displayAGC] reads. *)
Inductive RegName :=
| register_SG | register_F17 | register_F13 | register_F10 | register_SCL
| register_STA | register_STB | register_BR1 | register_BR2 | register_SNI
| register_CI | register_LOOPCTR | register_RPCELL | register_INHINT1
| register_INHINT | register_UpCELL | register_DnCELL | register_SQ
| register_S | register_G | register_G15 | register_P | register_P2
| register_PALM | register_B | register_X | register_Y | register_U
| register_A | register_BNK | register_Q | register_Z | register_LP
| register_IN0 | register_IN1 | register_IN2 | register_IN3
| register_OUT1 | register_OUT2 | register_OUT3 | register_OUT4.

(** Modelled from the spec: the initial value of a register, which class
    [reg] ([reg.h], not part of the sources at hand) sets; section 3,
    Lifecycle: "Registers initialize to 0". *)
Definition register_power_on (r : RegName) : Z := 0.

(** The indicator characters of [MON::displayAGC]:
    [char x = ' '; if (OUT::register_OUT1.read() & mask) x = '*';] *)
Record Indicators := mkIndicators {
  progAlm : ascii;
  compFail : ascii;
  keyRels : ascii;
  upTl : ascii;
  comp : ascii }.

Definition lamp (v : Z) : ascii := if truthy v then "*"%char else " "%char.

(** The masks are the octal constants 0400, 0100, 020, 004 and 001. *)
Definition indicators (OUT1 : Z) : Indicators :=
  {| progAlm := lamp (Z.land OUT1 256);
     compFail := lamp (Z.land OUT1 64);
     keyRels := lamp (Z.land OUT1 16);
     upTl := lamp (Z.land OUT1 4);
     comp := lamp (Z.land OUT1 1) |}.

Definition displayAGC_indicators {Sub} (E : Subsystems Sub) (s : Sub)
  : Indicators :=
  indicators (register_OUT1_read E s).

(** The two places of the display that show them:
    ["CF:[%c%c]:KR  [%c]:PA"] and ["A:[%c%c]"]. *)
Definition indicator_text (i : Indicators) : string * string :=
  (("CF:[" ++ String (compFail i) (String (keyRels i) "]:KR  [")
    ++ String (progAlm i) "]:PA")%string,
   ("A:[" ++ String (upTl i) (String (comp i) "]"))%string).

(** ** The pulse list as the sweeps see it *)

(** The cells from [i] on that precede the first [NO_PULSE], among the
    [left] cells the bound [MAXPULSES] admits. *)
Fixpoint issued (no_pulse : cpType) (cp : nat -> cpType) (left i : nat)
  : list cpType :=
  match left with
  | O => []
  | S left' =>
      if cp i =? no_pulse then []
      else cp i :: issued no_pulse cp left' (S i)
  end.

(** A pulse handler that leaves the pulse list alone. *)
Definition keeps_cp {Sub} (h : cpType -> AGC Sub -> AGC Sub) : Prop :=
  forall p s, glbl_cp (h p s) = glbl_cp s.

(** The events of one call of [genAGCStates] that dispatches the pulse
    lists [r], [alu], [or] and [w] in its four sweeps. *)
Definition generate_trace (r alu or w : list cpType) : list Event :=
  [EvCPM] ++ map EvR r ++ map EvR_ALU alu ++ map EvR_ALU_OR or ++ map EvW w
  ++ [EvWP_SCL; EvWP_F17; EvWP_F13; EvWP_F10; EvWP_TPG].

(** A trace made of [n] ticks: [clkAGC] followed by [genAGCStates]. *)
Inductive ticks : nat -> list Event -> Prop :=
| ticks_nil : ticks 0 []
| ticks_cons n r alu or w t :
    ticks n t -> ticks (S n) (EvClk :: generate_trace r alu or w ++ t).

(** ** A small machine

    An instance of the interface on which the statements are exercised:
    three registers, pulses RA (1), WS (2) and RU (3), and a pulse table
    that depends on the timing pulse only. *)

Module Mini.

Record Regs := mkRegs {
  SG : Z;
  S_reg : Z;
  A_reg : Z;
  OUT1 : Z }.

Definition table (sg : Z) : list cpType :=
  if sg =? 2 then [1; 2] else [3].

Definition cpm (s : AGC Regs) : AGC Regs :=
  set_glbl_cp (fun i => nth i (table (SG (sub s))) 0) s.

Definition execR (p : cpType) (s : AGC Regs) : AGC Regs :=
  if p =? 1 then set_READ_BUS (Z.lor (glbl_READ_BUS s) (A_reg (sub s))) s
  else s.

Definition execR_ALU (p : cpType) (s : AGC Regs) : AGC Regs :=
  if p =? 3 then set_ALU_BUS (Z.lor (ALU_glbl_BUS s) (S_reg (sub s))) s
  else s.

Definition execR_ALU_OR (p : cpType) (s : AGC Regs) : AGC Regs :=
  if p =? 3 then set_WRITE_BUS (Z.lor (glbl_WRITE_BUS s) (ALU_glbl_BUS s)) s
  else s.

Definition execW (p : cpType) (s : AGC Regs) : AGC Regs :=
  if p =? 2
  then set_sub (mkRegs (SG (sub s)) (glbl_WRITE_BUS s) (A_reg (sub s))
                       (OUT1 (sub s))) s
  else s.

Definition execWP_TPG (s : AGC Regs) : AGC Regs :=
  let sg := SG (sub s) in
  set_sub (mkRegs (if sg =? 13 then 2 else sg + 1) (S_reg (sub s))
                  (A_reg (sub s)) (OUT1 (sub s))) s.

Definition E : Subsystems Regs :=
  {| MAXPULSES := 15; NO_PULSE := 0; TP1 := 2; TP12 := 13; STBY := 0;
     WAIT := 14;
     controlPulseMatrix := cpm;
     doexecR := execR;
     doexecR_ALU := execR_ALU;
     doexecR_ALU_OR := execR_ALU_OR;
     doexecW := execW;
     doexecWP_SCL := fun s => s;
     doexecWP_F17 := fun s => s;
     doexecWP_F13 := fun s => s;
     doexecWP_F10 := fun s => s;
     doexecWP_TPG := execWP_TPG;
     clkAGC := fun s => s;
     register_SG_read := SG;
     register_SNI_read := fun _ => 0;
     register_OUT1_read := OUT1;
     getEffectiveAddress := S_reg;
     readMemory := fun _ _ => 0;
     writeMemory := fun _ _ s => s |}.

(** The machine at TP1 with 02000 in A, fast clock on and running. *)
Definition machine : AGC Regs :=
  {| glbl_READ_BUS := 5; glbl_WRITE_BUS := 6; MEM_DATA_BUS := 7;
     MEM_PARITY_BUS := 1; ALU_glbl_BUS := 0;
     glbl_cp := fun _ => 0;
     mon := mkMON 0 1 1 1 1 0 1;
     pcUp := fun _ => 0; pcDn := fun _ => 0; rupt := fun _ => 0;
     sub := mkRegs 2 0 1024 0 |}.

Definition driver : Driver Regs :=
  {| agc := machine; filename := ""; breakpointEnab := false;
     breakpoint := 0; watchEnab := false; watchAddr := 0;
     oldWatchValue := 0; singleClock := false; dskyChanged := false;
     displayTimeout := false; clockCounter := 0; displayOnce := false |}.

(** The same with a breakpoint set at 02000 by the monitor command. *)
Definition armed : Driver Regs := toggleBreakpoint "2000" driver.

(** Halted at TP12 with the fast clock on and the step switch set: a pass
    of the polling loop makes one tick, to TP1. *)
Definition stepping : Driver Regs :=
  set_agc (set_sub (mkRegs 13 0 1024 0)
             (set_mon (mkMON 0 0 1 1 1 0 1) machine)) driver.

(** A file system with one object file, cut short in its second record. *)
Definition files (name : string) : option string :=
  if String.eqb name "rope.obj"
  then Some ("000020 000007" ++ newline ++ "000005" ++ newline)%string
  else None.

End Mini.

(** The small machine with pulse 1 gating the write bus onto the read
    bus. *)
Module Feedback.

Definition execR (p : cpType) (s : AGC Mini.Regs) : AGC Mini.Regs :=
  if p =? 1 then set_READ_BUS (Z.lor (glbl_READ_BUS s) (glbl_WRITE_BUS s)) s
  else s.

Definition E : Subsystems Mini.Regs :=
  {| MAXPULSES := 15; NO_PULSE := 0; TP1 := 2; TP12 := 13; STBY := 0;
     WAIT := 14;
     controlPulseMatrix := Mini.cpm;
     doexecR := execR;
     doexecR_ALU := Mini.execR_ALU;
     doexecR_ALU_OR := Mini.execR_ALU_OR;
     doexecW := Mini.execW;
     doexecWP_SCL := fun s => s;
     doexecWP_F17 := fun s => s;
     doexecWP_F13 := fun s => s;
     doexecWP_F10 := fun s => s;
     doexecWP_TPG := Mini.execWP_TPG;
     clkAGC := fun s => s;
     register_SG_read := Mini.SG;
     register_SNI_read := fun _ => 0;
     register_OUT1_read := Mini.OUT1;
     getEffectiveAddress := Mini.S_reg;
     readMemory := fun _ _ => 0;
     writeMemory := fun _ _ s => s |}.

End Feedback.

(** The small machine with a pulse list of two cells, which the two pulses
    of TP1 fill. *)
Module Packed.

Definition E : Subsystems Mini.Regs :=
  {| MAXPULSES := 2; NO_PULSE := 0; TP1 := 2; TP12 := 13; STBY := 0;
     WAIT := 14;
     controlPulseMatrix := Mini.cpm;
     doexecR := Mini.execR;
     doexecR_ALU := Mini.execR_ALU;
     doexecR_ALU_OR := Mini.execR_ALU_OR;
     doexecW := Mini.execW;
     doexecWP_SCL := fun s => s;
     doexecWP_F17 := fun s => s;
     doexecWP_F13 := fun s => s;
     doexecWP_F10 := fun s => s;
     doexecWP_TPG := Mini.execWP_TPG;
     clkAGC := fun s => s;
     register_SG_read := Mini.SG;
     register_SNI_read := fun _ => 0;
     register_OUT1_read := Mini.OUT1;
     getEffectiveAddress := Mini.S_reg;
     readMemory := fun _ _ => 0;
     writeMemory := fun _ _ s => s |}.

End Packed.

(** Modelled from the spec: a well-formed object file; section 6: "one
    record per line: OOOOOO DDDDDD\n, both fields six-digit zero-padded
    octal". *)
Definition octal6 (l : list ascii) : bool :=
  Nat.eqb (List.length l) 6
  && forallb (fun c => match digit_value 8 c with
                       | Some _ => true
                       | None => false
                       end) l.

Fixpoint well_formed_records (fuel : nat) (l : list ascii) : bool :=
  match fuel with
  | O => false
  | S fuel' =>
      match l with
      | [] => true
      | _ =>
          octal6 (firstn 6 l)
          && match skipn 6 l with
             | " "%char :: r =>
                 octal6 (firstn 6 r)
                 && match skipn 6 r with
                    | c :: r' =>
                        Nat.eqb (nat_of_ascii c) 10
                        && well_formed_records fuel' r'
                    | [] => false
                    end
             | _ => false
             end
      end
  end.

Definition well_formed_obj (contents : string) : bool :=
  let l := list_ascii_of_string contents in
  well_formed_records (S (List.length l)) l.

(** ** More of [AGCmain.cpp] *)

(** *** [getCommand] *)

(** [isprint] in the C locale. *)
Definition isprint (c : ascii) : bool :=
  let n := nat_of_ascii c in Nat.leb 32 n && Nat.leb n 126.

Definition is_newline (c : ascii) : bool := Nat.eqb (nat_of_ascii c) 10.
Definition is_backspace (c : ascii) : bool := Nat.eqb (nat_of_ascii c) 8.

(** What a call of [getCommand] comes to on a finite stream of keys
    ([_getch] answers cast to [char]): the line and the keys not read; a
    store past the last cell of [static char s[80]]; or all keys read with
    no newline among them, the loop still polling. *)
Inductive command :=
| Line (line : string) (rest : list ascii)
| Overrun
| Polling.

(** The loop of [getCommand]; [buf] holds the cells [s[0]] to [sp[-1]].
    Both [*sp = key] and the final [*sp = 0] store at index
    [length buf]. *)
Fixpoint getCommand_loop (keys : list ascii) (buf : list ascii) : command :=
  match keys with
  | [] => Polling
  | key :: rest =>
      if is_newline key then
        if Nat.ltb (List.length buf) 80
        then Line (string_of_list_ascii buf) rest
        else Overrun
      else if isprint key then
        if Nat.ltb (List.length buf) 80
        then getCommand_loop rest (buf ++ [key])
        else Overrun
      else if is_backspace key && negb (Nat.eqb (List.length buf) 0)
      then getCommand_loop rest (removelast buf)
      else getCommand_loop rest buf
  end.

Definition getCommand (keys : list ascii) : command :=
  getCommand_loop keys [].

(** *** Watch *)

Definition set_watch {Sub} (en : bool) (a v : Z) (d : Driver Sub)
  : Driver Sub :=
  mkDriver (agc d) (filename d) (breakpointEnab d) (breakpoint d) en a v
           (singleClock d) (dskyChanged d) (displayTimeout d)
           (clockCounter d) (displayOnce d).

(** [toggleWatch] *)
Definition toggleWatch {Sub} (E : Subsystems Sub) (line : string)
  (d : Driver Sub) : Driver Sub :=
  if negb (watchEnab d) then
    let a := to_unsigned (strtol 8 line) in
    set_watch true a (readMemory E a (sub (agc d))) d
  else set_watch false (watchAddr d) (oldWatchValue d) d.

(** *** Formatting *)

Definition digit_char (v : Z) : ascii := ascii_of_nat (Z.to_nat (48 + v)).

(** The digits of a [%o] conversion, most significant first, put in front
    of [acc]; eleven digits hold any [unsigned]. *)
Fixpoint octal_digits (fuel : nat) (v : Z) (acc : list ascii) : list ascii :=
  match fuel with
  | O => acc
  | S fuel' =>
      let acc' := digit_char (v mod 8) :: acc in
      if v / 8 =? 0 then acc' else octal_digits fuel' (v / 8) acc'
  end.

(** [%06o] of an [unsigned]: zero padding to six places at least. *)
Definition format_06o (v : Z) : list ascii :=
  let ds := octal_digits 11 (to_unsigned v) [] in
  repeat "0"%char (6 - List.length ds) ++ ds.

Definition newline_char : ascii := ascii_of_nat 10.

(** ["%06o %06o\n"] *)
Definition format_record (addr data : Z) : list ascii :=
  format_06o addr ++ " "%char :: format_06o data ++ [newline_char].

(** ["%06o:  %06o\n"] *)
Definition format_examine (addr data : Z) : list ascii :=
  format_06o addr ++ ":"%char :: " "%char :: " "%char :: format_06o data
  ++ [newline_char].

(** The text of [MON::displayAGC] for G: bit 15 comes from [G15], the
    others from [G]: [(G & 0137777) | (G15 << 14)]. *)
Definition display_G (G G15 : Z) : Z :=
  Z.lor (Z.land G 49151) (Z.shiftl G15 14).




Definition set_FCLK (v : Z) (m : MON) : MON :=
  mkMON (PURST m) (RUN m) (STEP m) (INST m) v (SA m) (SCL_ENAB m).



Definition on_mon {Sub} (f : MON -> MON) (d : Driver Sub) : Driver Sub :=
  set_agc (set_mon (f (mon (agc d))) (agc d)) d.

(** A subsystem that leaves the monitor switches alone. *)
Definition keeps_mon {Sub} (E : Subsystems Sub) : Prop :=
  (forall s, mon (clkAGC E s) = mon s)
  /\ (forall s, mon (controlPulseMatrix E s) = mon s)
  /\ (forall p s, mon (doexecR E p s) = mon s)
  /\ (forall p s, mon (doexecR_ALU E p s) = mon s)
  /\ (forall p s, mon (doexecR_ALU_OR E p s) = mon s)
  /\ (forall p s, mon (doexecW E p s) = mon s)
  /\ (forall s, mon (doexecWP_SCL E s) = mon s)
  /\ (forall s, mon (doexecWP_F17 E s) = mon s)
  /\ (forall s, mon (doexecWP_F13 E s) = mon s)
  /\ (forall s, mon (doexecWP_F10 E s) = mon s)
  /\ (forall s, mon (doexecWP_TPG E s) = mon s).

Section MoreCommands.

Context {Sub : Type} (E : Subsystems Sub).

(** [MON::displayAGC()] as an event. *)
Definition displayAGC : Step (Driver Sub) := fun d => ([EvDisplay], d).

(** The cases of the [switch] of [main] that flip a switch:
    [MON::X = (MON::X + 1) % 2; genAGCStates(); MON::displayAGC();] for
    'c', 'a', 'n' and 'p'; for 'r' and 's' the display is under
    [if (!MON::FCLK)]. *)
Definition switch_key (flip : MON -> MON) (always : bool)
  : Step (Driver Sub) :=
  assign (on_mon flip) ;;
  on_agc (genAGCStates E) ;;
  (fun d => if always || negb (truthy (FCLK (mon (agc d))))
            then displayAGC d else ([], d)).


(** F2 and F4: [MON::FCLK = 0] or [1], then as above; F1:
    [singleClock = true]. *)
Definition key_F2 : Step (Driver Sub) := switch_key (set_FCLK 0) true.
Definition key_F4 : Step (Driver Sub) := switch_key (set_FCLK 1) true.
Definition key_F1 : Step (Driver Sub) := assign (set_singleClock true).

(** [saveMemory]: the records
    [for (unsigned addr = 020; addr <= 031777; addr++)]; the first argument
    counts the addresses still to go. *)
Fixpoint save_records (count : nat) (addr : Z) (s : Sub) : list ascii :=
  match count with
  | O => []
  | S count' =>
      format_record addr (readMemory E addr s)
      ++ save_records count' (addr + 1) s
  end.

(** 031777 - 020 + 1 addresses. *)
Definition saved_addresses : nat := Z.to_nat (13311 - 16 + 1).

(** [saveMemory(filename)]; [writable] tells whether [fopen(filename, "w")]
    succeeds, and [None] is [exit(-1)].  The result is the file system
    after the call. *)
Definition saveMemory (writable : string -> bool)
  (files : string -> option string) (name : string) (s : Sub)
  : option (string -> option string) :=
  if writable name then
    let text := string_of_list_ascii (save_records saved_addresses 16 s) in
    Some (fun n => if String.eqb n name then Some text else files n)
  else None.

(** [for (unsigned i = address; i < address + 23; i++)
      printw("%06o:  %06o\n", i, MEM::readMemory(i));]
    with [limit] the value of [address + 23] as an [unsigned]. *)
Equations? examine_from (i limit : Z) (s : Sub) : list Event
  by wf (Z.to_nat (limit - i)) lt :=
  examine_from i limit s with inspect (i <? limit) => {
    | exist _ true _ =>
        EvPrint (string_of_list_ascii
                   (format_examine i (readMemory E i s)))
        :: examine_from (i + 1) limit s
    | exist _ false _ => [] }.
Proof. apply Z.ltb_lt in e. lia. Qed.

(** [examineMemory]; [None] is a store past the end of
    [char theAddress[20]], which [strcpy] makes for a line of more than 19
    characters. *)
Definition examineMemory (line : string) (s : Sub) : option (list Event) :=
  if Nat.ltb 19 (String.length line) then None
  else
    let address := to_unsigned (strtol 8 line) in
    Some (EvPrint newline
          :: examine_from address (to_unsigned (address + 23)) s).

End MoreCommands.

(** The small machine with register S readable as the memory word at
    address 0. *)
Module Watched.

Definition E : Subsystems Mini.Regs :=
  {| MAXPULSES := 15; NO_PULSE := 0; TP1 := 2; TP12 := 13; STBY := 0;
     WAIT := 14;
     controlPulseMatrix := Mini.cpm;
     doexecR := Mini.execR;
     doexecR_ALU := Mini.execR_ALU;
     doexecR_ALU_OR := Mini.execR_ALU_OR;
     doexecW := Mini.execW;
     doexecWP_SCL := fun s => s;
     doexecWP_F17 := fun s => s;
     doexecWP_F13 := fun s => s;
     doexecWP_F10 := fun s => s;
     doexecWP_TPG := Mini.execWP_TPG;
     clkAGC := fun s => s;
     register_SG_read := Mini.SG;
     register_SNI_read := fun _ => 0;
     register_OUT1_read := Mini.OUT1;
     getEffectiveAddress := Mini.S_reg;
     readMemory := fun a r => if a =? 0 then Mini.S_reg r else 0;
     writeMemory := fun _ _ s => s |}.

End Watched.



(** The driver left to run: neither breakpoint nor watch, fast clock on and
    the machine running. *)
Definition free_running {Sub} (d : Driver Sub) : Prop :=
  breakpointEnab d = false /\ watchEnab d = false /\ fast_running d = true.

(** *** Reading back what was written *)

(** The characters ['0'] to ['7']. *)
Definition octal_char (c : ascii) : Prop :=
  exists v, 0 <= v < 8 /\ c = digit_char v.

(** The number a run of octal digits denotes, continuing from [acc]. *)
Definition octal_value (acc : Z) (ds : list ascii) : Z :=
  fold_left (fun a c => a * 8 + (Z.of_nat (nat_of_ascii c) - 48)) ds acc.

(** Input at which a run of octal digits ends. *)
Definition ends_octal (l : list ascii) : Prop :=
  match l with
  | [] => True
  | c :: _ => digit_value 8 c = None
  end.

(** [count] consecutive addresses from [addr] on. *)
Definition addresses (addr : Z) (count : nat) : list Z :=
  map (fun k => addr + Z.of_nat k) (List.seq 0 count).

(** The files of the small machine after its memory is saved as
    [core.obj]. *)
Definition core_files (n : string) : option string :=
  if String.eqb n "core.obj"
  then Some (string_of_list_ascii
               (save_records Mini.E saved_addresses 16
                  (sub (agc Mini.driver))))
  else Mini.files n.

(** A file system whose one object file starts with a letter. *)
Definition junk_files (n : string) : option string :=
  if String.eqb n "junk.obj" then Some " x20 7"%string else None.

(** The text of an object file that holds the given address/data pairs,
    one ["%06o %06o\n"] line each. *)
Definition record_lines (records : list (Z * Z)) : list ascii :=
  flat_map (fun r => format_record (fst r) (snd r)) records.

(** A pair of [unsigned] values. *)
Definition unsigned_pair (r : Z * Z) : Prop :=
  0 <= fst r < 2 ^ 32 /\ 0 <= snd r < 2 ^ 32.

(** A file system with an object file of two records. *)
Definition teco_files (n : string) : option string :=
  if String.eqb n "teco1.obj"
  then Some (string_of_list_ascii (record_lines [(1024, 12345); (1025, 7)]))
  else None.

Local Open Scope nat_scope.
(** *** [showSourceCode] *)

(** [fgets(s, 256, fp)] on the unread part of the file: it reads until a
    newline has been read or [room] characters have; the result is what was
    read, what is left, and whether the end of the file was met. *)
Fixpoint fgets_read (room : nat) (l : list ascii)
  : list ascii * list ascii * bool :=
  match room with
  | O => ([], l, false)
  | S room' =>
      match l with
      | [] => ([], [], true)
      | c :: r =>
          if is_newline c then ([c], r, false)
          else let '(chunk, rest, e) := fgets_read room' r in
               (c :: chunk, rest, e)
      end
  end.

(** The locals of [showSourceCode] and the state of the stream. *)
Record source_state := mkSource {
  src_pos : nat;
  src_eof : bool;
  src_op : nat;
  src_foffset : nat -> nat;
  src_found : bool;
  src_lines : nat;
  src_shown : list Event }.

(** The line as displayed: the mark, then the first 79 characters. *)
Definition source_hit (CADR : string) (chunk : list ascii) : bool :=
  String.eqb (string_of_list_ascii (firstn 5 chunk)) CADR.

Definition source_line (CADR : string) (chunk : list ascii) : list Event :=
  [EvPrint (if source_hit CADR chunk then ">" else " ");
   EvPrint (string_of_list_ascii (firstn 79 chunk))].

(** [while (!feof(fp)) { ... }]; [None] is a run not ended within
    [fuel] passes. *)
Fixpoint source_loop (fuel : nat) (content : list ascii) (CADR : string)
  (st : source_state) : option (list Event) :=
  match fuel with
  | O => None
  | S fuel' =>
      if src_eof st then Some (src_shown st)
      else
        let foffset :=
          if src_found st then src_foffset st
          else fun m => if Nat.eqb m (src_op st) then src_pos st
                        else src_foffset st m in
        let op :=
          if src_found st then src_op st else (src_op st + 1) mod 10 in
        let '(chunk, _, e) := fgets_read 255 (skipn (src_pos st) content) in
        match chunk with
        | [] =>
            source_loop fuel' content CADR
              (mkSource (src_pos st) e op foffset (src_found st)
                        (src_lines st) (src_shown st))
        | _ :: _ =>
            let pos' := src_pos st + List.length chunk in
            if src_found st then
              let shown := src_shown st ++ source_line CADR chunk in
              if Nat.leb 23 (src_lines st + 1) then Some shown
              else source_loop fuel' content CADR
                     (mkSource pos' e op foffset true (src_lines st + 1)
                               shown)
            else if source_hit CADR chunk then
              source_loop fuel' content CADR
                (mkSource (foffset op) false op foffset true (src_lines st)
                          (src_shown st))
            else
              source_loop fuel' content CADR
                (mkSource pos' e op foffset false (src_lines st)
                          (src_shown st))
        end
  end.

Definition source_start : source_state :=
  mkSource 0 false 0 (fun _ => 0) false 0 [].

(** The pieces [fgets] cuts a text into. *)
Inductive chunked : list ascii -> list (list ascii) -> Prop :=
| chunked_nil : chunked [] []
| chunked_cons c l chunk rest e cs :
    fgets_read 255 (c :: l) = (chunk, rest, e) ->
    chunked rest cs -> chunked (c :: l) (chunk :: cs).

Fixpoint chunks (fuel : nat) (l : list ascii) : list (list ascii) :=
  match fuel with
  | O => []
  | S fuel' =>
      match l with
      | [] => []
      | _ :: _ =>
          let '(chunk, rest, _) := fgets_read 255 l in
          chunk :: chunks fuel' rest
      end
  end.

(** No piece before the [k]-th has the address, the [k]-th has. *)
Definition first_hit (CADR : string) (cs : list (list ascii)) (k : nat)
  : Prop :=
  (exists chunk, nth_error cs k = Some chunk /\ source_hit CADR chunk = true)
  /\ forall j chunk, (j < k)%nat -> nth_error cs j = Some chunk ->
                     source_hit CADR chunk = false.

(** [sprintf(CADR, "%05o", ...)] *)
Definition format_05o (v : Z) : list ascii :=
  let ds := octal_digits 11 (to_unsigned v) [] in
  repeat "0"%char (5 - List.length ds) ++ ds.

(** What a call of [showSourceCode] comes to: the lines printed; a run of
    the loop not ended within the passes allowed; or a store past the end
    of [char fname[80]] or [char CADR[6]]. *)
Inductive listing :=
| Listed (t : list Event)
| Unended
| BufferOverrun.

(** [showSourceCode]; the text is taken to hold no NUL character. *)
Definition showSourceCode {Sub} (E : Subsystems Sub)
  (fopen : string -> option string) (fuel : nat) (d : Driver Sub)
  : listing :=
  if Nat.ltb 75 (String.length (filename d)) then BufferOverrun
  else
    let fname := (filename d ++ ".lst")%string in
    match fopen fname with
    | None =>
        Listed [EvPrint "fopen failed:";
                EvPrint ("*** ERROR: Can't load source list file: "
                         ++ fname ++ newline)]
    | Some contents =>
        let CADR := format_05o (getEffectiveAddress E (sub (agc d))) in
        if Nat.ltb 5 (List.length CADR) then BufferOverrun
        else
          match source_loop fuel (list_ascii_of_string contents)
                            (string_of_list_ascii CADR) source_start with
          | Some t => Listed (EvPrint newline :: t)
          | None => Unended
          end
    end.

(** The pieces of a whole text. *)
Definition file_chunks (contents : string) : list (list ascii) :=
  let l := list_ascii_of_string contents in chunks (List.length l) l.

(** A listing of two lines for the small machine, whose effective address
    is 0. *)
Definition lst_files (n : string) : option string :=
  if String.eqb n ".lst"
  then Some ("00017 XCH" ++ newline ++ "00000 TC" ++ newline)%string
  else if String.eqb n "x.lst"
  then Some ("00017 XCH" ++ newline ++ "00020 TC")%string
  else None.

(** The byte offset at which piece [i] starts. *)
Definition offset (cs : list (list ascii)) (i : nat) : nat :=
  List.length (List.concat (firstn i cs)).

(** The ring of the last ten offsets. *)
Definition ring (cs : list (list ascii)) (i : nat) (fo : nat -> nat) : Prop :=
  (forall j, (j < i)%nat -> (i <= j + 10)%nat -> fo (j mod 10) = offset cs j)
  /\ (forall m, (i <= m)%nat -> (m < 10)%nat -> fo m = 0%nat).

Local Close Scope nat_scope.

(** * Properties *)

(** ** Sequencing *)

Lemma and_then_fst {S} (f g : Step S) (s : S) :
  fst ((f ;; g) s) = fst (f s) ++ fst (g (snd (f s))).
Proof.
  unfold and_then. destruct (f s) as [t1 s1]. simpl.
  destruct (g s1) as [t2 s2]. reflexivity.
Qed.

Lemma and_then_snd {S} (f g : Step S) (s : S) :
  snd ((f ;; g) s) = snd (g (snd (f s))).
Proof.
  unfold and_then. destruct (f s) as [t1 s1]. simpl.
  destruct (g s1) as [t2 s2]. reflexivity.
Qed.


Lemma pair_eta {A B} (x : A * B) : x = (fst x, snd x).
Proof. destruct x. reflexivity. Qed.

(** ** The sweeps *)

Section Sweeps.

Context {Sub : Type} (E : Subsystems Sub).
Variable ev : cpType -> Event.
Variable h : cpType -> AGC Sub -> AGC Sub.

(** Whatever the handlers do, a sweep dispatches a list of pulses, none of
    them [NO_PULSE], no longer than the bound it was started with. *)
Lemma sweep_trace (left : nat) :
  forall i s, exists l,
    fst (sweep E ev h left i s) = map ev l
    /\ (List.length l <= left)%nat
    /\ Forall (fun p => p <> NO_PULSE E) l.
Proof.
  induction left as [|left IH]; intros i s; simpl.
  - exists []. repeat split; auto.
  - destruct (glbl_cp s i =? NO_PULSE E) eqn:Hp.
    + exists []. repeat split; simpl; auto. lia.
    + apply Z.eqb_neq in Hp.
      destruct (IH (S i) (h (glbl_cp s i) s)) as (l & Ht & Hl & Hf).
      exists (glbl_cp s i :: l). rewrite and_then_fst. simpl.
      rewrite Ht. repeat split; simpl; auto. lia.
Qed.

(** A sweep logs the pulses it takes from the list and has called the
    handler on each of them, first to last, when it ends. *)
Lemma sweep_dispatched (left : nat) :
  forall i s,
    sweep E ev h left i s
    = (map ev (dispatched E h left i s),
       run_pulses h (dispatched E h left i s) s).
Proof.
  induction left as [|left IH]; intros i s; simpl.
  - reflexivity.
  - destruct (glbl_cp s i =? NO_PULSE E).
    + reflexivity.
    + unfold and_then. cbn [exec]. rewrite IH. reflexivity.
Qed.

(** The pulses taken are the cells [i], [i + 1], ... in turn, each as the
    handler calls before it have left it; the first cell not taken is the
    one at the bound or one that reads [NO_PULSE]. *)
Lemma dispatched_cells (left : nat) :
  forall i s,
    let l := dispatched E h left i s in
    l = map (fun j => glbl_cp (run_pulses h (firstn j l) s) (i + j)%nat)
            (List.seq 0 (List.length l))
    /\ Forall (fun p => p <> NO_PULSE E) l
    /\ (List.length l <= left)%nat
    /\ (List.length l = left
        \/ glbl_cp (run_pulses h l s) (i + List.length l)%nat = NO_PULSE E).
Proof.
  induction left as [|left IH]; intros i s; cbn [dispatched].
  - cbv zeta. repeat split; auto.
  - destruct (glbl_cp s i =? NO_PULSE E) eqn:Hp; cbv zeta.
    + apply Z.eqb_eq in Hp. cbn [List.length List.seq map run_pulses fold_left].
      rewrite Nat.add_0_r. repeat split; auto; lia.
    + apply Z.eqb_neq in Hp.
      destruct (IH (S i) (h (glbl_cp s i) s)) as (Hl & Hf & Hle & Hend).
      set (l := dispatched E h left (S i) (h (glbl_cp s i) s)) in *.
      cbn [List.length]. repeat split.
      * cbn [List.seq map firstn run_pulses fold_left].
        rewrite Nat.add_0_r. f_equal.
        rewrite <- seq_shift, map_map. rewrite Hl at 1.
        apply map_ext. intros j. cbn [firstn run_pulses fold_left].
        f_equal. lia.
      * constructor; assumption.
      * lia.
      * destruct Hend as [Hend|Hend]; [left; lia | right].
        cbn [run_pulses fold_left].
        replace (i + S (List.length l))%nat with (S i + List.length l)%nat
          by lia.
        exact Hend.
Qed.


End Sweeps.

(** ** The pulse list *)

Section Issued.

Variable no_pulse : cpType.
Variable cp : nat -> cpType.

Lemma issued_cells (left : nat) :
  forall i,
    let l := issued no_pulse cp left i in
    l = map cp (List.seq i (List.length l))
    /\ (forall j, (j < List.length l)%nat -> cp (i + j)%nat <> no_pulse)
    /\ (List.length l <= left)%nat
    /\ ((List.length l < left)%nat -> cp (i + List.length l)%nat = no_pulse).
Proof.
  induction left as [|left IH]; intros i; simpl.
  - repeat split; intros; simpl in *; lia.
  - destruct (cp i =? no_pulse) eqn:Hp; simpl.
    + apply Z.eqb_eq in Hp. rewrite Nat.add_0_r.
      repeat split; intros; lia.
    + apply Z.eqb_neq in Hp.
      destruct (IH (S i)) as (Hl & Hne & Hle & Hend).
      repeat split.
      * f_equal. exact Hl.
      * intros [|j] Hj.
        -- rewrite Nat.add_0_r. exact Hp.
        -- replace (i + S j)%nat with (S i + j)%nat by lia.
           apply Hne. lia.
      * lia.
      * intros Hlt. replace (i + S _)%nat
          with (S i + List.length (issued no_pulse cp left (S i)))%nat by lia.
        apply Hend. lia.
Qed.

End Issued.

(** ** [genAGCStates] *)

Section Generate.

Context {Sub : Type} (E : Subsystems Sub).

Lemma phase_clear_fst (s : AGC Sub) : fst (phase_clear E s) = [EvCPM].
Proof. reflexivity. Qed.

Lemma phase_always_fst (s : AGC Sub) :
  fst (phase_always E s) = [EvWP_SCL; EvWP_F17; EvWP_F13; EvWP_F10; EvWP_TPG].
Proof. reflexivity. Qed.

Lemma phase_always_snd (s : AGC Sub) :
  snd (phase_always E s)
  = doexecWP_TPG E (doexecWP_F10 E (doexecWP_F13 E (doexecWP_F17 E
      (doexecWP_SCL E s)))).
Proof. reflexivity. Qed.

Lemma phase_ALU_fst (s : AGC Sub) :
  fst (phase_ALU E s)
  = fst (sweep E EvR_ALU (doexecR_ALU E) (MAXPULSES E) 0 (set_ALU_BUS 0 s)).
Proof. unfold phase_ALU. rewrite and_then_fst. reflexivity. Qed.

Lemma phase_ALU_snd (s : AGC Sub) :
  snd (phase_ALU E s)
  = snd (sweep E EvR_ALU (doexecR_ALU E) (MAXPULSES E) 0 (set_ALU_BUS 0 s)).
Proof. unfold phase_ALU. rewrite and_then_snd. reflexivity. Qed.

Lemma genAGCStates_fst (s : AGC Sub) :
  fst (genAGCStates E s)
  = [EvCPM] ++ fst (phase_R E (at_R E s)) ++ fst (phase_ALU E (at_ALU E s))
    ++ fst (phase_OR E (at_OR E s)) ++ fst (phase_W E (at_W E s))
    ++ [EvWP_SCL; EvWP_F17; EvWP_F13; EvWP_F10; EvWP_TPG].
Proof.
  unfold genAGCStates.
  rewrite !and_then_fst.
  reflexivity.
Qed.

Lemma genAGCStates_snd (s : AGC Sub) :
  snd (genAGCStates E s) = snd (phase_always E (at_always E s)).
Proof.
  unfold genAGCStates. rewrite !and_then_snd. reflexivity.
Qed.

(** The four sweeps of a call, whatever the handlers do. *)
Lemma genAGCStates_sweeps (s : AGC Sub) :
  exists r alu or w : list cpType,
    fst (genAGCStates E s) = generate_trace r alu or w
    /\ (List.length r <= MAXPULSES E)%nat
    /\ (List.length alu <= MAXPULSES E)%nat
    /\ (List.length or <= MAXPULSES E)%nat
    /\ (List.length w <= MAXPULSES E)%nat.
Proof.
  destruct (sweep_trace E EvR (doexecR E) (MAXPULSES E) 0 (at_R E s))
    as (r & Hr & Lr & _).
  destruct (sweep_trace E EvR_ALU (doexecR_ALU E) (MAXPULSES E) 0
              (set_ALU_BUS 0 (at_ALU E s))) as (alu & Halu & Lalu & _).
  destruct (sweep_trace E EvR_ALU_OR (doexecR_ALU_OR E) (MAXPULSES E) 0
              (at_OR E s)) as (or & Hor & Lor & _).
  destruct (sweep_trace E EvW (doexecW E) (MAXPULSES E) 0 (at_W E s))
    as (w & Hw & Lw & _).
  exists r, alu, or, w. repeat split; auto.
  rewrite genAGCStates_fst, phase_ALU_fst.
  unfold phase_R, phase_OR, phase_W.
  rewrite Hr, Halu, Hor, Hw. reflexivity.
Qed.

(** A call in terms of the pulses its sweeps take and of the handler
    calls made on them. *)
Lemma genAGCStates_run (s : AGC Sub) :
  let s1 := set_MEM_PARITY_BUS 0 (set_MEM_DATA_BUS 0 (set_READ_BUS 0
              (controlPulseMatrix E s))) in
  let r := dispatched E (doexecR E) (MAXPULSES E) 0 s1 in
  let s2 := set_ALU_BUS 0 (run_pulses (doexecR E) r s1) in
  let alu := dispatched E (doexecR_ALU E) (MAXPULSES E) 0 s2 in
  let s3 := run_pulses (doexecR_ALU E) alu s2 in
  let s4 := set_WRITE_BUS (glbl_READ_BUS s3) s3 in
  let or := dispatched E (doexecR_ALU_OR E) (MAXPULSES E) 0 s4 in
  let s5 := run_pulses (doexecR_ALU_OR E) or s4 in
  let w := dispatched E (doexecW E) (MAXPULSES E) 0 s5 in
  let s6 := run_pulses (doexecW E) w s5 in
  genAGCStates E s
  = (generate_trace r alu or w,
     doexecWP_TPG E (doexecWP_F10 E (doexecWP_F13 E (doexecWP_F17 E
       (doexecWP_SCL E s6))))).
Proof.
  cbv zeta.
  unfold genAGCStates, phase_clear, phase_R, phase_ALU, phase_OR_init,
    phase_OR, phase_W, phase_always.
  unfold and_then at 1 2 3 4. cbn [exec assign].
  unfold and_then at 1. rewrite sweep_dispatched.
  unfold and_then at 1 2. cbn [assign]. rewrite sweep_dispatched.
  unfold and_then at 1. cbn [phase_OR_init assign].
  unfold and_then at 1. rewrite sweep_dispatched.
  unfold and_then at 1. rewrite sweep_dispatched.
  unfold and_then. cbn [exec].
  rewrite ?app_nil_l, ?app_nil_r. reflexivity.
Qed.

(** C1: in every call of [genAGCStates] the pulse matrix runs first; then
    the read sweep calls [doexecR] on the pulses [r] it takes from
    [glbl_cp]; then the ALU read sweep calls [doexecR_ALU] on the pulses
    [alu] it takes, then the ALU-OR sweep [doexecR_ALU_OR] on [or], then
    the write sweep [doexecW] on [w], each sweep starting in the state the
    one before has left; only then run [WP_SCL], [WP_F17], [WP_F13] and
    [WP_F10], and last [WP_TPG], whose result the call returns. *)
Theorem genAGCStates_order (s : AGC Sub) :
  let s1 := set_MEM_PARITY_BUS 0 (set_MEM_DATA_BUS 0 (set_READ_BUS 0
              (controlPulseMatrix E s))) in
  let r := dispatched E (doexecR E) (MAXPULSES E) 0 s1 in
  let s2 := set_ALU_BUS 0 (run_pulses (doexecR E) r s1) in
  let alu := dispatched E (doexecR_ALU E) (MAXPULSES E) 0 s2 in
  let s3 := run_pulses (doexecR_ALU E) alu s2 in
  let s4 := set_WRITE_BUS (glbl_READ_BUS s3) s3 in
  let or := dispatched E (doexecR_ALU_OR E) (MAXPULSES E) 0 s4 in
  let s5 := run_pulses (doexecR_ALU_OR E) or s4 in
  let w := dispatched E (doexecW E) (MAXPULSES E) 0 s5 in
  let s6 := run_pulses (doexecW E) w s5 in
  genAGCStates E s
  = ([EvCPM] ++ map EvR r ++ map EvR_ALU alu ++ map EvR_ALU_OR or
     ++ map EvW w ++ [EvWP_SCL; EvWP_F17; EvWP_F13; EvWP_F10; EvWP_TPG],
     doexecWP_TPG E (doexecWP_F10 E (doexecWP_F13 E (doexecWP_F17 E
       (doexecWP_SCL E s6)))))
  /\ taken E (doexecR E) s1 r
  /\ taken E (doexecR_ALU E) s2 alu
  /\ taken E (doexecR_ALU_OR E) s4 or
  /\ taken E (doexecW E) s5 w.
Proof.
  cbv zeta. split; [exact (genAGCStates_run s)|].
  split; [|split; [|split]];
    exact (dispatched_cells E _ (MAXPULSES E) 0 _).
Qed.

(** *** The buses *)




End Generate.

(** ** The driver loop *)

Section Driving.

Context {Sub : Type} (E : Subsystems Sub).

Lemma truthy_false (v : Z) : truthy v = false -> v = 0.
Proof.
  unfold truthy. intros H. apply negb_false_iff in H.
  apply Z.eqb_eq. exact H.
Qed.

Lemma on_agc_snd (f : Step (AGC Sub)) (d : Driver Sub) :
  snd (on_agc f d) = set_agc (snd (f (agc d))) d.
Proof. unfold on_agc. destruct (f (agc d)). reflexivity. Qed.

Lemma on_agc_fst (f : Step (AGC Sub)) (d : Driver Sub) :
  fst (on_agc f d) = fst (f (agc d)).
Proof. unfold on_agc. destruct (f (agc d)). reflexivity. Qed.

(** [clkAGC] and [genAGCStates] act on the machine only. *)
Lemma clock_and_generate_snd (d : Driver Sub) :
  snd (clock_and_generate E d)
  = set_agc (snd (genAGCStates E (clkAGC E (agc d))))
            (set_singleClock false d).
Proof.
  unfold clock_and_generate.
  rewrite !and_then_snd, !on_agc_snd. reflexivity.
Qed.

Lemma clock_and_generate_fst (d : Driver Sub) :
  fst (clock_and_generate E d)
  = EvClk :: fst (genAGCStates E (clkAGC E (agc d))).
Proof.
  unfold clock_and_generate.
  rewrite !and_then_fst, ?and_then_snd, !on_agc_fst, ?on_agc_snd.
  reflexivity.
Qed.

Lemma tick_fst (d : Driver Sub) :
  exists r alu or w, fst (tick E d) = EvClk :: generate_trace r alu or w.
Proof.
  destruct (genAGCStates_sweeps E (clkAGC E (agc d)))
    as (r & alu & or & w & Ht & _).
  exists r, alu, or, w. unfold tick.
  rewrite !and_then_fst, clock_and_generate_fst, Ht.
  cbn [assign fst]. rewrite !app_nil_r. reflexivity.
Qed.

Lemma tick_snd (d : Driver Sub) :
  snd (tick E d)
  = watch_check E (breakpoint_check E (snd (clock_and_generate E d))).
Proof. unfold tick. rewrite !and_then_snd. reflexivity. Qed.

Lemma watch_check_halted (d : Driver Sub) :
  RUN (mon (agc d)) = 0 -> RUN (mon (agc (watch_check E d))) = 0.
Proof.
  unfold watch_check. intros H.
  destruct (watchEnab d); [|exact H].
  destruct (negb _); simpl; auto.
Qed.

Lemma watch_check_sub (d : Driver Sub) :
  sub (agc (watch_check E d)) = sub (agc d).
Proof.
  unfold watch_check. destruct (watchEnab d); [|reflexivity].
  destruct (negb _); reflexivity.
Qed.

Lemma breakpoint_check_sub (d : Driver Sub) :
  sub (agc (breakpoint_check E d)) = sub (agc d).
Proof. unfold breakpoint_check. destruct (_ && _); reflexivity. Qed.

(** C4 (what the code does): with a breakpoint enabled, a tick after which
    the effective address equals the breakpoint leaves [RUN] at 0 whatever
    timing pulse [SG] then holds; the check never consults [SG]. *)
Theorem breakpoint_checked_at_every_pulse (d : Driver Sub) :
  let d1 := snd (clock_and_generate E d) in
  breakpointEnab d = true ->
  breakpoint d = getEffectiveAddress E (sub (agc d1)) ->
  RUN (mon (agc (snd (tick E d)))) = 0
  /\ register_SG_read E (sub (agc (snd (tick E d))))
     = register_SG_read E (sub (agc d1)).
Proof.
  intros d1 Hen Hbp. rewrite tick_snd. fold d1. split.
  - apply watch_check_halted. unfold breakpoint_check.
    replace (breakpointEnab d1) with true
      by (unfold d1; rewrite clock_and_generate_snd; symmetry; exact Hen).
    replace (breakpoint d1) with (breakpoint d)
      by (unfold d1; rewrite clock_and_generate_snd; reflexivity).
    rewrite Hbp, Z.eqb_refl. reflexivity.
  - rewrite watch_check_sub, breakpoint_check_sub. reflexivity.
Qed.

(** The inner loop, for any value of the counter. *)
Lemma batch_ticks (c : Z) (d : Driver Sub) :
  exists n,
    ticks n (fst (batch E c d))
    /\ (1 <= n)%nat
    /\ Z.of_nat n <= Z.max 1 c
    /\ (Z.of_nat n = Z.max 1 c \/ fast_running (snd (batch E c d)) = false).
Proof.
  funelim (batch E c d).
  - match goal with
    | IH : exists n, _ |- _ => destruct IH as (n & Hn & Hone & Hle & Hex)
    end.
    destruct (andb_prop _ _ e0) as [_ Hc]. apply Z.ltb_lt in Hc.
    destruct (tick_fst d) as (r & alu & or & w & Ht).
    rewrite e in Ht. cbn [fst] in Ht. subst t1.
    destruct (batch E (c - 1) d1) as [t2 d2]. cbn [fst snd] in *.
    exists (S n). repeat split.
    + change ((EvClk :: generate_trace r alu or w) ++ t2)
        with (EvClk :: generate_trace r alu or w ++ t2).
      constructor. exact Hn.
    + lia.
    + lia.
    + destruct Hex as [Hex|Hex]; [left; lia | right; exact Hex].
  - destruct (tick_fst d) as (r & alu & or & w & Ht).
    rewrite e in Ht. cbn [fst] in Ht. subst t1.
    exists 1%nat. cbn [fst snd]. repeat split.
    + rewrite <- (app_nil_r (generate_trace r alu or w)).
      constructor. constructor.
    + lia.
    + lia.
    + destruct (proj1 (andb_false_iff _ _) e0) as [Hf|Hc].
      * right. exact Hf.
      * left. apply Z.ltb_ge in Hc. lia.
Qed.

(** C8: started with its counter at 100, the inner loop of [main] ends in
    every state of the driver, after at least one and at most 100 ticks,
    each a call of [clkAGC] followed by [genAGCStates]; it ends before the
    hundredth tick only when [FCLK] or [RUN] is off. *)
Theorem batch_at_most_100_ticks (d : Driver Sub) :
  exists n t d',
    batch E 100 d = (t, d')
    /\ ticks n t
    /\ (1 <= n <= 100)%nat
    /\ (n = 100%nat \/ fast_running d' = false).
Proof.
  destruct (batch_ticks 100 d) as (n & Hn & H1 & Hle & Hex).
  exists n, (fst (batch E 100 d)), (snd (batch E 100 d)).
  split; [apply pair_eta|]. split; [exact Hn|]. split; [lia|].
  destruct Hex as [Hex|Hex]; [left; lia | right; exact Hex].
Qed.

Lemma step_switch_check_TP1 (d : Driver Sub) :
  register_SG_read E (sub (agc (step_switch_check E d))) = TP1 E ->
  STEP (mon (agc (step_switch_check E d))) = 0.
Proof.
  unfold step_switch_check.
  destruct (truthy (STEP (mon (agc d)))) eqn:Hs; cbn [andb].
  - destruct (register_SG_read E (sub (agc d)) =? TP1 E) eqn:Hsg.
    + reflexivity.
    + apply Z.eqb_neq in Hsg. intros H. contradiction.
  - intros _. apply truthy_false. exact Hs.
Qed.

Lemma poll_iteration_snd (elapsed : bool) (d : Driver Sub) :
  exists d1, snd (poll_iteration E elapsed d) = step_switch_check E d1.
Proof.
  unfold poll_iteration.
  destruct (if truthy (FCLK (mon (agc d))) || singleClock d
            then (batch E 100 ;; updateAGCDisplay E elapsed) d
            else ([], d)) as [t d1].
  exists d1. reflexivity.
Qed.

Lemma poll_loop_last (clock : list bool) :
  clock <> [] ->
  forall d, exists d1, snd (poll_loop E clock d) = step_switch_check E d1.
Proof.
  induction clock as [|elapsed rest IH]; intros Hne d.
  - contradiction.
  - cbn [poll_loop]. rewrite and_then_snd.
    destruct rest as [|e' rest'].
    + cbn [poll_loop snd]. apply poll_iteration_snd.
    + apply IH. discriminate.
Qed.

(** C10: the check at the end of a pass of the polling loop clears [STEP]
    when [STEP] is set and [SG] reads [TP1], and changes nothing else; so
    after any pass, and after any non-empty run of passes, [SG] reading
    [TP1] implies [STEP] is 0. *)
Theorem step_switch_released_at_TP1 :
  (forall d,
      truthy (STEP (mon (agc d))) = true ->
      register_SG_read E (sub (agc d)) = TP1 E ->
      step_switch_check E d = release_step d
      /\ STEP (mon (agc (step_switch_check E d))) = 0)
  /\ (forall elapsed d,
        let d' := snd (poll_iteration E elapsed d) in
        register_SG_read E (sub (agc d')) = TP1 E ->
        STEP (mon (agc d')) = 0)
  /\ (forall clock d,
        clock <> [] ->
        let d' := snd (poll_loop E clock d) in
        register_SG_read E (sub (agc d')) = TP1 E ->
        STEP (mon (agc d')) = 0).
Proof.
  split; [|split].
  - intros d Hs Hsg. unfold step_switch_check.
    rewrite Hs, Hsg, Z.eqb_refl. split; reflexivity.
  - intros elapsed d d'. unfold d'.
    destruct (poll_iteration_snd elapsed d) as [d1 ->].
    apply step_switch_check_TP1.
  - intros clock d Hne d'. unfold d'.
    destruct (poll_loop_last clock Hne d) as [d1 ->].
    apply step_switch_check_TP1.
Qed.

End Driving.

(** ** Monitor commands *)

Section Loading.

Context {Sub : Type} (E : Subsystems Sub).

(** C6 (amended): when the name typed fits the buffer for the file name
    and the object file cannot be opened, [loadMemory] returns having
    reported the error, with the machine, its memory included, as it was
    and without a call of [MEM::writeMemory]. *)
Theorem loadMemory_unopened_file (fopen : string -> option string)
  (line : string) (addr0 data0 : Z) (fuel : nat) (d : Driver Sub) :
  (String.length line <= 75)%nat ->
  fopen (line ++ ".obj")%string = None ->
  exists t d',
    loadMemory E fopen line addr0 data0 fuel d = Loaded t d'
    /\ agc d' = agc d
    /\ (forall a v, ~ In (EvWriteMemory a v) t)
    /\ In (EvPrint ("*** ERROR: Can't load memory for file: "
                    ++ (line ++ ".obj") ++ newline)) t.
Proof.
  intros Hlen Hopen. unfold loadMemory.
  replace (Nat.ltb 75 (String.length line)) with false
    by (symmetry; apply Nat.ltb_ge; exact Hlen).
  rewrite Hopen.
  eexists. eexists. split; [reflexivity|]. split; [reflexivity|]. split.
  - intros a v [H|[H|[H|[]]]]; discriminate H.
  - right. right. left. reflexivity.
Qed.

End Loading.

(** C6 (as stated, refuted): the object file of the small machine is not
    well formed, its second record lacking the data field, yet loading it
    calls [MEM::writeMemory] twice, the second time with the data of the
    first record. *)
Lemma loadMemory_malformed_file_writes :
  Mini.files "rope.obj"
  = Some ("000020 000007" ++ newline ++ "000005" ++ newline)%string
  /\ well_formed_obj ("000020 000007" ++ newline ++ "000005" ++ newline)
     = false
  /\ load_trace (loadMemory Mini.E Mini.files "rope" 0 0 3 Mini.driver)
     = Some [EvPrint newline; EvWriteMemory 16 7; EvWriteMemory 5 7;
             EvPrint ("Memory loaded." ++ newline)%string].
Proof. repeat split; vm_compute; reflexivity. Qed.

(** A store within the extent sets the addressed line and no other. *)
Lemma array_store_in_range (extent : Z) (a : nat -> Z) (i v : Z) :
  0 <= i < extent ->
  exists a',
    array_store extent a i v = Some a'
    /\ a' (Z.to_nat i) = v
    /\ (forall k, k <> Z.to_nat i -> a' k = a k).
Proof.
  intros Hi. unfold array_store.
  replace ((0 <=? i) && (i <? extent)) with true
    by (symmetry; apply andb_true_intro; split;
        [apply Z.leb_le | apply Z.ltb_lt]; lia).
  eexists. split; [reflexivity|]. split.
  - rewrite Nat.eqb_refl. reflexivity.
  - intros k Hk. apply Nat.eqb_neq in Hk. rewrite Hk. reflexivity.
Qed.

(** C7 (what the code does): the three commands store at the index the
    operator typed, unchecked.  19, which the prompt of the counter
    commands invites, lies outside the seven counter lines; 6 and the empty
    line, which [atoi] reads as 0, give the interrupt command the indices 5
    and -1, outside the five interrupt lines. *)
Theorem request_line_store_unchecked {Sub} (s : AGC Sub) :
  incrCntr "19" s = None
  /\ decrCntr "19" s = None
  /\ interrupt "6" s = None
  /\ interrupt "" s = None.
Proof. repeat split. Qed.

(** ** [MON.cpp] *)

(** C5 (as stated, refuted): [INST] is a monitor input other than [PURST]
    and its initial value is not 0. *)
Lemma power_on_INST_not_zero :
  ~ (forall v, v <> MON_PURST -> mon_read MON_power_on v = 0).
Proof.
  intros H. specialize (H MON_INST). simpl in H.
  assert (1 = 0) by (apply H; discriminate). discriminate.
Qed.

(** C5 (amended): at power-on the monitor inputs [PURST], [INST] and
    [SCL_ENAB] are 1, the other monitor inputs are 0, and every register
    is 0. *)
Theorem power_on_values :
  (forall v,
      mon_read MON_power_on v
      = match v with
        | MON_PURST | MON_INST | MON_SCL_ENAB => 1
        | MON_RUN | MON_STEP | MON_FCLK | MON_SA => 0
        end)
  /\ (forall r, register_power_on r = 0).
Proof. split; [intros []; reflexivity | reflexivity]. Qed.

Lemma land_pow2 (x k : Z) :
  0 <= k -> truthy (Z.land x (2 ^ k)) = Z.testbit x k.
Proof.
  intros Hk. unfold truthy.
  destruct (Z.testbit x k) eqn:Hb.
  - apply negb_true_iff, Z.eqb_neq. intros H0.
    assert (Ht : Z.testbit (Z.land x (2 ^ k)) k = true).
    { rewrite Z.land_spec, Hb, Z.pow2_bits_true by exact Hk. reflexivity. }
    rewrite H0, Z.bits_0 in Ht. discriminate.
  - apply negb_false_iff, Z.eqb_eq. apply Z.bits_inj'. intros n Hn.
    rewrite Z.land_spec, Z.bits_0, Z.pow2_bits_eqb by exact Hk.
    destruct (k =? n) eqn:Hkn.
    + apply Z.eqb_eq in Hkn. subst n. rewrite Hb. reflexivity.
    + apply andb_false_r.
Qed.

Lemma lamp_land (x k : Z) :
  0 <= k ->
  lamp (Z.land x (2 ^ k)) = if Z.testbit x k then "*"%char else " "%char.
Proof. intros Hk. unfold lamp. rewrite land_pow2 by exact Hk. reflexivity. Qed.

(** C9: the indicators [MON::displayAGC] shows are lit by single bits of
    [OUT1]: COMP ACTY by bit 0, UPLINK ACTY by bit 2, KEY RELS by bit 4,
    CHECK FAIL (OPER ERR) by bit 6 and PROG ALM by bit 8, the masks being
    001, 004, 020, 0100 and 0400 octal. *)
Theorem displayAGC_indicator_bits {Sub} (E : Subsystems Sub) (s : Sub) :
  let OUT1 := register_OUT1_read E s in
  let on (b : bool) := if b then "*"%char else " "%char in
  let i := displayAGC_indicators E s in
  comp i = on (Z.testbit OUT1 0)
  /\ upTl i = on (Z.testbit OUT1 2)
  /\ keyRels i = on (Z.testbit OUT1 4)
  /\ compFail i = on (Z.testbit OUT1 6)
  /\ progAlm i = on (Z.testbit OUT1 8)
  /\ i = {| progAlm := lamp (Z.land OUT1 (8 * 8 * 4));
            compFail := lamp (Z.land OUT1 (8 * 8));
            keyRels := lamp (Z.land OUT1 (8 * 2));
            upTl := lamp (Z.land OUT1 4);
            comp := lamp (Z.land OUT1 1) |}.
Proof.
  cbv zeta. unfold displayAGC_indicators, indicators. cbn [comp upTl keyRels
    compFail progAlm].
  repeat split.
  - apply (lamp_land _ 0). lia.
  - apply (lamp_land _ 2). lia.
  - apply (lamp_land _ 4). lia.
  - apply (lamp_land _ 6). lia.
  - apply (lamp_land _ 8). lia.
Qed.

(** ** The statements on the small machine *)



Lemma Mini_keeps_cp :
  keeps_cp (doexecR Mini.E) /\ keeps_cp (doexecR_ALU Mini.E)
  /\ keeps_cp (doexecR_ALU_OR Mini.E) /\ keeps_cp (doexecW Mini.E).
Proof.
  repeat split; intros p s; cbn [doexecR doexecR_ALU doexecR_ALU_OR doexecW
    Mini.E]; unfold Mini.execR, Mini.execR_ALU, Mini.execR_ALU_OR, Mini.execW;
    destruct (p =? _); reflexivity.
Qed.

(** The breakpoint 02000 stops the small machine at TP2, where the write
    of S has just made it the effective address. *)
Lemma breakpoint_checked_at_every_pulse_witness :
  RUN (mon (agc Mini.armed)) = 1
  /\ register_SG_read Mini.E (sub (agc (snd (tick Mini.E Mini.armed)))) = 3
  /\ TP1 Mini.E = 2
  /\ RUN (mon (agc (snd (tick Mini.E Mini.armed)))) = 0.
Proof.
  destruct (breakpoint_checked_at_every_pulse Mini.E Mini.armed)
    as [Hrun Hsg].
  - reflexivity.
  - vm_compute. reflexivity.
  - split; [reflexivity|]. split; [|split; [reflexivity | exact Hrun]].
    rewrite Hsg. vm_compute. reflexivity.
Defined.

Lemma loadMemory_unopened_file_witness :
  exists t d',
    loadMemory Mini.E Mini.files "teco1" 0 0 0 Mini.driver = Loaded t d'
    /\ agc d' = agc Mini.driver
    /\ (forall a v, ~ In (EvWriteMemory a v) t)
    /\ In (EvPrint ("*** ERROR: Can't load memory for file: "
                    ++ ("teco1" ++ ".obj") ++ newline)) t.
Proof.
  apply (loadMemory_unopened_file Mini.E Mini.files "teco1" 0 0 0 Mini.driver).
  - simpl. lia.
  - reflexivity.
Defined.

Lemma step_switch_released_at_TP1_witness :
  (step_switch_check Mini.E Mini.driver = release_step Mini.driver
   /\ STEP (mon (agc (step_switch_check Mini.E Mini.driver))) = 0)
  /\ STEP (mon (agc Mini.stepping)) = 1
  /\ STEP (mon (agc (snd (poll_iteration Mini.E true Mini.stepping)))) = 0
  /\ STEP (mon (agc (snd (poll_loop Mini.E [true] Mini.stepping)))) = 0.
Proof.
  destruct (step_switch_released_at_TP1 Mini.E) as (Hcheck & Hpass & Hloop).
  split; [|split; [|split]].
  - apply Hcheck; reflexivity.
  - reflexivity.
  - apply Hpass. vm_compute. reflexivity.
  - apply Hloop; [discriminate | vm_compute; reflexivity].
Defined.

(** * Further properties *)

(** ** [getCommand] *)

Lemma isprint_not_newline (c : ascii) :
  isprint c = true -> is_newline c = false.
Proof.
  unfold isprint, is_newline. intros H.
  apply andb_prop in H. destruct H as [H _]. apply Nat.leb_le in H.
  apply Nat.eqb_neq. lia.
Qed.

Lemma isprint_not_backspace (c : ascii) :
  isprint c = true -> is_backspace c = false.
Proof.
  unfold isprint, is_backspace. intros H.
  apply andb_prop in H. destruct H as [H _]. apply Nat.leb_le in H.
  apply Nat.eqb_neq. lia.
Qed.

Lemma getCommand_loop_typed (l rest : list ascii) :
  forallb isprint l = true ->
  forall buf,
    (List.length buf + List.length l < 80)%nat ->
    getCommand_loop (l ++ newline_char :: rest) buf
    = Line (string_of_list_ascii (buf ++ l)) rest.
Proof.
  induction l as [|c l IH]; intros Hp buf Hlen; simpl in *.
  - rewrite app_nil_r.
    replace (Nat.ltb (List.length buf) 80) with true
      by (symmetry; apply Nat.ltb_lt; lia).
    reflexivity.
  - apply andb_prop in Hp. destruct Hp as [Hc Hl].
    rewrite (isprint_not_newline c Hc), Hc.
    replace (Nat.ltb (List.length buf) 80) with true
      by (symmetry; apply Nat.ltb_lt; lia).
    rewrite IH; [|exact Hl|rewrite length_app; simpl; lia].
    rewrite <- app_assoc. reflexivity.
Qed.

(** X1: a line of at most 79 printable characters, typed and ended with
    Enter, is what [getCommand] returns, and the keys after Enter are left
    for the next read. *)
Theorem getCommand_typed_line (line : string) (rest : list ascii) :
  forallb isprint (list_ascii_of_string line) = true ->
  (String.length line <= 79)%nat ->
  getCommand (list_ascii_of_string line ++ newline_char :: rest)
  = Line line rest.
Proof.
  intros Hp Hlen. unfold getCommand.
  rewrite getCommand_loop_typed.
  - simpl. rewrite string_of_list_ascii_of_string. reflexivity.
  - exact Hp.
  - simpl. assert (List.length (list_ascii_of_string line)
                   = String.length line) as ->.
    { clear. induction line; simpl; auto. }
    lia.
Qed.

Lemma getCommand_typed_line_witness :
  getCommand (list_ascii_of_string "2000" ++ newline_char
              :: list_ascii_of_string "r")
  = Line "2000" (list_ascii_of_string "r").
Proof.
  apply (getCommand_typed_line "2000" (list_ascii_of_string "r")).
  - reflexivity.
  - simpl. lia.
Defined.

(** X2: a printable key followed by a backspace leaves the line as it was,
    and a backspace on an empty line is ignored. *)
Theorem getCommand_backspace (c : ascii) (rest buf : list ascii) :
  isprint c = true ->
  (List.length buf < 80)%nat ->
  getCommand_loop (c :: ascii_of_nat 8 :: rest) buf
  = getCommand_loop rest buf
  /\ getCommand (ascii_of_nat 8 :: rest) = getCommand rest.
Proof.
  intros Hc Hlen. split; [|reflexivity].
  cbn [getCommand_loop].
  rewrite (isprint_not_newline c Hc), Hc.
  replace (Nat.ltb (List.length buf) 80) with true
    by (symmetry; apply Nat.ltb_lt; lia).
  change (is_newline (ascii_of_nat 8)) with false.
  change (isprint (ascii_of_nat 8)) with false.
  change (is_backspace (ascii_of_nat 8)) with true.
  cbn [andb].
  replace (Nat.eqb (List.length (buf ++ [c])) 0) with false
    by (symmetry; apply Nat.eqb_neq; rewrite length_app; simpl; lia).
  cbn [negb]. rewrite removelast_last. reflexivity.
Qed.

Lemma getCommand_backspace_witness :
  getCommand_loop ("7"%char :: ascii_of_nat 8 :: list_ascii_of_string "3")
                  (list_ascii_of_string "1")
  = getCommand_loop (list_ascii_of_string "3") (list_ascii_of_string "1")
  /\ getCommand (ascii_of_nat 8 :: list_ascii_of_string "3")
     = getCommand (list_ascii_of_string "3").
Proof.
  apply (getCommand_backspace "7"%char).
  - reflexivity.
  - simpl. lia.
Defined.

Lemma forallb_removelast {A} (f : A -> bool) (l : list A) :
  forallb f l = true -> forallb f (removelast l) = true.
Proof.
  induction l as [|a l IH]; simpl; intros H; [reflexivity|].
  apply andb_prop in H. destruct H as [Ha Hl].
  destruct l as [|b l']; [reflexivity|].
  change (forallb f (a :: removelast (b :: l')) = true).
  simpl. rewrite Ha. apply IH. exact Hl.
Qed.

Lemma getCommand_loop_line (keys : list ascii) :
  forall buf line rest,
    forallb isprint buf = true ->
    getCommand_loop keys buf = Line line rest ->
    forallb isprint (list_ascii_of_string line) = true
    /\ (String.length line <= 79)%nat
    /\ exists read, keys = read ++ newline_char :: rest.
Proof.
  induction keys as [|key keys IH]; intros buf line rest Hbuf H;
    cbn [getCommand_loop] in H; [discriminate|].
  destruct (is_newline key) eqn:Hnl.
  - destruct (Nat.ltb (List.length buf) 80) eqn:Hlen; [|discriminate].
    injection H as <- <-. apply Nat.ltb_lt in Hlen.
    rewrite list_ascii_of_string_of_list_ascii. split; [exact Hbuf|].
    split.
    + assert (String.length (string_of_list_ascii buf) = List.length buf)
        as ->.
      { clear. induction buf; simpl; auto. }
      lia.
    + exists []. simpl. f_equal. unfold is_newline in Hnl.
      apply Nat.eqb_eq in Hnl. unfold newline_char. rewrite <- Hnl.
      symmetry. apply ascii_nat_embedding.
  - assert (Hcons : forall r, keys = r ++ newline_char :: rest ->
                      exists read, key :: keys = read ++ newline_char :: rest).
    { intros r ->. exists (key :: r). reflexivity. }
    destruct (isprint key) eqn:Hp.
    + destruct (Nat.ltb (List.length buf) 80); [|discriminate].
      assert (Hbuf' : forallb isprint (buf ++ [key]) = true).
      { rewrite forallb_app, Hbuf. simpl. rewrite Hp. reflexivity. }
      destruct (IH _ _ _ Hbuf' H) as (H1 & H2 & r & H3).
      repeat split; eauto.
    + destruct (is_backspace key && negb (Nat.eqb (List.length buf) 0)).
      * destruct (IH _ _ _ (forallb_removelast _ _ Hbuf) H)
          as (H1 & H2 & r & H3).
        repeat split; eauto.
      * destruct (IH _ _ _ Hbuf H) as (H1 & H2 & r & H3).
        repeat split; eauto.
Qed.

(** X3: whatever is typed, a line [getCommand] returns holds printable
    characters only and at most 79 of them, and the keys up to the Enter
    that ended it have been read. *)
Theorem getCommand_line (keys : list ascii) (line : string)
  (rest : list ascii) :
  getCommand keys = Line line rest ->
  forallb isprint (list_ascii_of_string line) = true
  /\ (String.length line <= 79)%nat
  /\ exists read, keys = read ++ newline_char :: rest.
Proof. apply getCommand_loop_line. reflexivity. Qed.

Lemma getCommand_line_witness :
  forallb isprint (list_ascii_of_string "19") = true
  /\ (String.length "19" <= 79)%nat
  /\ exists read,
      list_ascii_of_string "1x" ++ [ascii_of_nat 8; "9"%char; newline_char]
      = read ++ newline_char :: [].
Proof.
  apply (getCommand_line
           (list_ascii_of_string "1x"
            ++ [ascii_of_nat 8; "9"%char; newline_char]) "19" []).
  reflexivity.
Defined.

Lemma getCommand_loop_overrun (l rest : list ascii) :
  forallb isprint l = true ->
  forall buf,
    (80 <= List.length buf + List.length l)%nat ->
    getCommand_loop (l ++ newline_char :: rest) buf = Overrun.
Proof.
  induction l as [|c l IH]; intros Hp buf Hlen; simpl in *.
  - replace (Nat.ltb (List.length buf) 80) with false
      by (symmetry; apply Nat.ltb_ge; lia).
    reflexivity.
  - apply andb_prop in Hp. destruct Hp as [Hc Hl].
    rewrite (isprint_not_newline c Hc), Hc.
    destruct (Nat.ltb (List.length buf) 80); [|reflexivity].
    apply IH; [exact Hl|rewrite length_app; simpl; lia].
Qed.

(** X4: eighty or more printable keys before Enter, with no backspace
    among them, make [getCommand] store past the end of its buffer of 80
    characters. *)
Theorem getCommand_overrun (l rest : list ascii) :
  forallb isprint l = true ->
  (80 <= List.length l)%nat ->
  getCommand (l ++ newline_char :: rest) = Overrun.
Proof.
  intros Hp Hlen. apply getCommand_loop_overrun; [exact Hp|simpl; lia].
Qed.

Lemma getCommand_overrun_witness :
  getCommand (repeat "7"%char 80 ++ newline_char :: []) = Overrun.
Proof.
  apply (getCommand_overrun (repeat "7"%char 80) []).
  - reflexivity.
  - simpl. lia.
Defined.

(** ** Watch *)

Section Watching.

Context {Sub : Type} (E : Subsystems Sub).

Lemma set_oldWatchValue_same (d : Driver Sub) :
  set_oldWatchValue (oldWatchValue d) d = d.
Proof. destruct d. reflexivity. Qed.

(** X5: setting a watch records the word at the watched address.  The
    first check of the watch comes at the end of the next tick, after
    [clkAGC], [genAGCStates] and the breakpoint check: it halts the
    machine exactly when the tick has changed the watched word, and
    records the word as it then is; when the tick has left the word as it
    was, the check changes nothing. *)
Theorem toggleWatch_trips_on_change (line : string) (d : Driver Sub) :
  watchEnab d = false ->
  let d' := toggleWatch E line d in
  let d1 := breakpoint_check E (snd (clock_and_generate E d')) in
  let before := readMemory E (watchAddr d') (sub (agc d)) in
  let after := readMemory E (watchAddr d') (sub (agc d1)) in
  watchEnab d' = true
  /\ oldWatchValue d' = before
  /\ snd (tick E d')
     = set_oldWatchValue after (if after =? before then d1 else halt d1)
  /\ (after = before -> snd (tick E d') = d1)
  /\ (after <> before -> RUN (mon (agc (snd (tick E d')))) = 0).
Proof.
  intros Hoff d' d1 before after.
  assert (Hen : watchEnab d' = true)
    by (unfold d', toggleWatch; rewrite Hoff; reflexivity).
  assert (Hold : oldWatchValue d' = before)
    by (unfold before, d', toggleWatch; rewrite Hoff; reflexivity).
  assert (Hen1 : watchEnab d1 = true).
  { unfold d1, breakpoint_check. rewrite clock_and_generate_snd.
    destruct (_ && _); exact Hen. }
  assert (Hold1 : oldWatchValue d1 = before).
  { unfold d1, breakpoint_check. rewrite clock_and_generate_snd.
    destruct (_ && _); exact Hold. }
  assert (Haddr : watchAddr d1 = watchAddr d').
  { unfold d1, breakpoint_check. rewrite clock_and_generate_snd.
    destruct (_ && _); reflexivity. }
  assert (Htick : snd (tick E d')
                  = set_oldWatchValue after
                      (if after =? before then d1 else halt d1)).
  { rewrite tick_snd. fold d1. unfold watch_check.
    rewrite Hen1, Haddr, Hold1. fold after.
    destruct (after =? before); reflexivity. }
  split; [exact Hen|]. split; [exact Hold|]. split; [exact Htick|]. split.
  - intros Hsame. rewrite Htick, Hsame, Z.eqb_refl, <- Hold1.
    apply set_oldWatchValue_same.
  - intros Hdiff. rewrite Htick. apply Z.eqb_neq in Hdiff. rewrite Hdiff.
    reflexivity.
Qed.


End Watching.

(** On the machine whose word 0 is register S, the tick at TP1 writes S:
    a watch set on word 0 halts the machine at that tick, a watch set on
    word 5 does not. *)
Lemma toggleWatch_trips_on_change_witness :
  RUN (mon (agc Mini.driver)) = 1
  /\ RUN (mon (agc (snd (tick Watched.E
                           (toggleWatch Watched.E "0" Mini.driver))))) = 0
  /\ RUN (mon (agc (snd (tick Watched.E
                           (toggleWatch Watched.E "5" Mini.driver))))) = 1.
Proof.
  split; [reflexivity|]. split.
  - apply (toggleWatch_trips_on_change Watched.E "0" Mini.driver eq_refl).
    vm_compute. discriminate.
  - rewrite (proj1 (proj2 (proj2 (proj2
      (toggleWatch_trips_on_change Watched.E "5" Mini.driver eq_refl)))))
      by (vm_compute; reflexivity).
    vm_compute. reflexivity.
Defined.


(** ** More on the driver loop *)

Section FreeRun.

Context {Sub : Type} (E : Subsystems Sub).

Lemma sweep_keeps {A} (f : AGC Sub -> A) (ev : cpType -> Event)
  (h : cpType -> AGC Sub -> AGC Sub) :
  (forall p s, f (h p s) = f s) ->
  forall left i s, f (snd (sweep E ev h left i s)) = f s.
Proof.
  intros Hh. induction left as [|left IH]; intros i s; simpl.
  - reflexivity.
  - destruct (glbl_cp s i =? NO_PULSE E); [reflexivity|].
    rewrite and_then_snd. cbn [exec snd]. rewrite IH. apply Hh.
Qed.

Lemma genAGCStates_mon (s : AGC Sub) :
  keeps_mon E -> mon (snd (genAGCStates E s)) = mon s.
Proof.
  intros (_ & Hcpm & HR & HALU & HOR & HW & H1 & H2 & H3 & H4 & H5).
  rewrite genAGCStates_snd, phase_always_snd.
  rewrite H5, H4, H3, H2, H1.
  unfold at_always, phase_W. rewrite (sweep_keeps mon) by exact HW.
  unfold at_W, phase_OR. rewrite (sweep_keeps mon) by exact HOR.
  unfold at_OR, at_OR_init. cbn [phase_OR_init assign snd set_WRITE_BUS mon].
  rewrite phase_ALU_snd, (sweep_keeps mon) by exact HALU.
  cbn [set_ALU_BUS mon].
  unfold at_ALU, phase_R. rewrite (sweep_keeps mon) by exact HR.
  unfold at_R, phase_clear. rewrite !and_then_snd. cbn [exec assign snd].
  cbn [set_MEM_PARITY_BUS set_MEM_DATA_BUS set_READ_BUS mon].
  apply Hcpm.
Qed.

Lemma clock_and_generate_mon (d : Driver Sub) :
  keeps_mon E -> mon (agc (snd (clock_and_generate E d))) = mon (agc d).
Proof.
  intros H. rewrite clock_and_generate_snd. cbn [set_agc agc].
  rewrite genAGCStates_mon by exact H. apply (proj1 H).
Qed.

(** The checks of a tick touch [RUN] only. *)
Lemma breakpoint_check_FCLK (d : Driver Sub) :
  FCLK (mon (agc (breakpoint_check E d))) = FCLK (mon (agc d)).
Proof. unfold breakpoint_check. destruct (_ && _); reflexivity. Qed.

Lemma watch_check_FCLK (d : Driver Sub) :
  FCLK (mon (agc (watch_check E d))) = FCLK (mon (agc d)).
Proof.
  unfold watch_check. destruct (watchEnab d); [|reflexivity].
  destruct (negb _); reflexivity.
Qed.

Lemma tick_FCLK (d : Driver Sub) :
  keeps_mon E -> FCLK (mon (agc (snd (tick E d)))) = FCLK (mon (agc d)).
Proof.
  intros H. rewrite tick_snd, watch_check_FCLK, breakpoint_check_FCLK.
  rewrite clock_and_generate_mon by exact H. reflexivity.
Qed.

Lemma tick_singleClock (d : Driver Sub) :
  singleClock (snd (tick E d)) = false.
Proof.
  rewrite tick_snd. unfold watch_check, breakpoint_check.
  rewrite clock_and_generate_snd.
  repeat match goal with
         | |- context [if ?b then _ else _] => destruct b
         end; reflexivity.
Qed.

(** With neither breakpoint nor watch, a tick is [clkAGC] and
    [genAGCStates] and nothing more. *)
Lemma tick_unchecked (d : Driver Sub) :
  breakpointEnab d = false -> watchEnab d = false ->
  snd (tick E d) = snd (clock_and_generate E d).
Proof.
  intros Hb Hw. rewrite tick_snd. unfold watch_check, breakpoint_check.
  rewrite clock_and_generate_snd.
  cbn [breakpointEnab watchEnab set_agc set_singleClock].
  rewrite Hb. cbn [andb watchEnab set_agc set_singleClock].
  rewrite Hw. reflexivity.
Qed.

Lemma batch_step (c : Z) (d : Driver Sub) :
  batch E c d
  = if fast_running (snd (tick E d)) && (0 <? c - 1)
    then (fst (tick E d) ++ fst (batch E (c - 1) (snd (tick E d))),
          snd (batch E (c - 1) (snd (tick E d))))
    else tick E d.
Proof.
  funelim (batch E c d).
  - rewrite e. cbn [fst snd]. rewrite e0.
    destruct (batch E (c - 1) d1). reflexivity.
  - rewrite e. cbn [fst snd]. rewrite e0. reflexivity.
Qed.

(** What a tick keeps, the inner loop keeps. *)
Lemma batch_preserves (P : Driver Sub -> Prop) :
  (forall d, P d -> P (snd (tick E d))) ->
  forall c d, P d -> P (snd (batch E c d)).
Proof.
  intros Htick c d. funelim (batch E c d); intros HP.
  - specialize (Htick d HP) as HP1. rewrite e in HP1. cbn [snd] in HP1.
    match goal with
    | IH : forall Q, _ -> Q d1 -> Q (snd (batch E (c - 1) d1)) |- _ =>
        specialize (IH P Htick HP1)
    end.
    destruct (batch E (c - 1) d1). assumption.
  - specialize (Htick d HP) as HP1. rewrite e in HP1. exact HP1.
Qed.

Lemma tick_free_running (d : Driver Sub) :
  keeps_mon E -> free_running d -> free_running (snd (tick E d)).
Proof.
  intros H (Hb & Hw & Hf). rewrite tick_unchecked by assumption.
  unfold free_running, fast_running.
  rewrite clock_and_generate_mon by exact H.
  rewrite clock_and_generate_snd. cbn [breakpointEnab watchEnab set_agc
    set_singleClock].
  repeat split; assumption.
Qed.

(** X7: with the fast clock on, the machine running, no breakpoint and no
    watch, and subsystems that leave the monitor switches alone, every pass
    of the inner loop makes exactly 100 ticks and leaves the machine
    running. *)
Theorem batch_free_run (d : Driver Sub) :
  keeps_mon E ->
  breakpointEnab d = false -> watchEnab d = false ->
  truthy (FCLK (mon (agc d))) = true -> truthy (RUN (mon (agc d))) = true ->
  exists t d',
    batch E 100 d = (t, d')
    /\ ticks 100 t
    /\ truthy (FCLK (mon (agc d'))) = true
    /\ truthy (RUN (mon (agc d'))) = true.
Proof.
  intros H Hb Hw Hf Hr.
  assert (Hfree : free_running d).
  { repeat split; auto. unfold fast_running. rewrite Hf, Hr. reflexivity. }
  pose proof (batch_preserves free_running
                (fun d0 => tick_free_running d0 H) 100 d Hfree)
    as (_ & _ & Hrun).
  destruct (batch_ticks E 100 d) as (n & Hn & _ & Hle & Hex).
  exists (fst (batch E 100 d)), (snd (batch E 100 d)).
  split; [apply pair_eta|].
  destruct Hex as [Hex|Hex]; [|congruence].
  replace n with 100%nat in Hn by lia.
  apply andb_prop in Hrun. destruct Hrun as [Hf' Hr'].
  repeat split; assumption.
Qed.

Lemma step_switch_check_idem (d : Driver Sub) :
  step_switch_check E (step_switch_check E d) = step_switch_check E d.
Proof.
  unfold step_switch_check.
  destruct (truthy (STEP (mon (agc d)))
            && (register_SG_read E (sub (agc d)) =? TP1 E)) eqn:H.
  - reflexivity.
  - rewrite H. reflexivity.
Qed.

Lemma step_switch_check_idle (d : Driver Sub) :
  FCLK (mon (agc (step_switch_check E d))) = FCLK (mon (agc d))
  /\ singleClock (step_switch_check E d) = singleClock d.
Proof. unfold step_switch_check. destruct (_ && _); split; reflexivity. Qed.

Lemma poll_iteration_idle (elapsed : bool) (d : Driver Sub) :
  FCLK (mon (agc d)) = 0 -> singleClock d = false ->
  poll_iteration E elapsed d = ([], step_switch_check E d).
Proof.
  intros Hf Hs. unfold poll_iteration. rewrite Hf, Hs. reflexivity.
Qed.

Lemma poll_loop_idle (clock : list bool) :
  forall d,
    FCLK (mon (agc d)) = 0 -> singleClock d = false ->
    poll_loop E clock (step_switch_check E d) = ([], step_switch_check E d).
Proof.
  induction clock as [|e clock IH]; intros d Hf Hs; cbn [poll_loop].
  - reflexivity.
  - destruct (step_switch_check_idle d) as [Hf' Hs'].
    unfold and_then. rewrite poll_iteration_idle by congruence.
    rewrite step_switch_check_idem, IH by assumption. reflexivity.
Qed.

(** X8: with the fast clock off and no single clock asked for, the polling
    loop never clocks the machine: any number of passes leaves no event,
    and changes the state by the release of the step switch at most. *)
Theorem poll_loop_manual_idle (clock : list bool) (d : Driver Sub) :
  FCLK (mon (agc d)) = 0 -> singleClock d = false -> clock <> [] ->
  poll_loop E clock d = ([], step_switch_check E d).
Proof.
  intros Hf Hs Hne. destruct clock as [|e clock]; [contradiction|].
  cbn [poll_loop]. unfold and_then.
  rewrite poll_iteration_idle, poll_loop_idle by assumption. reflexivity.
Qed.

(** X9: with the fast clock off, a single clock (F1) makes exactly one
    tick, followed by one display, however many passes the polling loop
    makes before the next key; the request is cleared by then. *)
Theorem single_clock_one_tick (clock : list bool) (d : Driver Sub) :
  keeps_mon E ->
  FCLK (mon (agc d)) = 0 -> clock <> [] ->
  let d0 := snd (key_F1 d) in
  fst (poll_loop E clock d0) = fst (tick E d0) ++ [EvDisplay]
  /\ (exists r alu or w,
        fst (tick E d0) = EvClk :: generate_trace r alu or w)
  /\ singleClock (snd (poll_loop E clock d0)) = false.
Proof.
  intros H Hf Hne d0.
  assert (Hf0 : FCLK (mon (agc d0)) = 0) by exact Hf.
  assert (Hf1 : FCLK (mon (agc (snd (tick E d0)))) = 0)
    by (rewrite tick_FCLK by exact H; exact Hf0).
  assert (Hbatch : batch E 100 d0 = tick E d0).
  { rewrite batch_step. unfold fast_running. rewrite Hf1. reflexivity. }
  destruct clock as [|e clock]; [contradiction|].
  assert (Hpass : exists d1,
             poll_iteration E e d0
             = (fst (tick E d0) ++ [EvDisplay], step_switch_check E d1)
             /\ FCLK (mon (agc d1)) = 0 /\ singleClock d1 = false).
  { unfold poll_iteration.
    replace (truthy (FCLK (mon (agc d0))) || singleClock d0) with true
      by (rewrite Hf0; reflexivity).
    unfold and_then. rewrite Hbatch.
    destruct (tick E d0) as [t1 d1] eqn:Ht. cbn [fst snd] in Hf1.
    pose proof (tick_singleClock d0) as Hs1. rewrite Ht in Hs1.
    cbn [snd] in Hs1. unfold updateAGCDisplay. rewrite Hf1. cbn [truthy
      Z.eqb negb].
    eexists. split; [reflexivity|]. split; [exact Hf1 | exact Hs1]. }
  destruct Hpass as (d1 & Hpass & Hd1f & Hd1s).
  cbn [poll_loop]. unfold and_then. rewrite Hpass.
  rewrite poll_loop_idle by assumption. cbn [fst snd].
  rewrite app_nil_r. repeat split.
  - apply tick_fst.
  - rewrite (proj2 (step_switch_check_idle d1)). exact Hd1s.
Qed.

Lemma updateAGCDisplay_counter (elapsed : bool) (d : Driver Sub) :
  agc (snd (updateAGCDisplay E elapsed d)) = agc d
  /\ (0 <= clockCounter d <= 500 ->
      0 <= clockCounter (snd (updateAGCDisplay E elapsed d)) <= 500).
Proof.
  unfold updateAGCDisplay.
  destruct (truthy (FCLK (mon (agc d)))); [|split; [reflexivity|auto]].
  destruct (truthy (RUN (mon (agc d)))).
  - destruct ((if elapsed then true else displayTimeout d) || dskyChanged d);
      [|split; [reflexivity|auto]].
    destruct (500 <? clockCounter d + 1) eqn:Hc.
    + rewrite !orb_true_r. cbn [orb]. split; [reflexivity|].
      cbn [snd clockCounter set_display]. lia.
    + apply Z.ltb_ge in Hc. rewrite orb_false_r.
      destruct (_ || _ || _); split; try reflexivity;
        cbn [snd clockCounter set_display]; lia.
  - destruct (_ =? WAIT E); [destruct (negb _)|];
      split; try reflexivity; cbn [snd clockCounter set_display]; auto; lia.
Qed.

Lemma tick_clockCounter (d : Driver Sub) :
  clockCounter (snd (tick E d)) = clockCounter d.
Proof.
  rewrite tick_snd. unfold watch_check, breakpoint_check.
  rewrite clock_and_generate_snd.
  repeat match goal with
         | |- context [if ?b then _ else _] => destruct b
         end; reflexivity.
Qed.

Lemma poll_iteration_counter (elapsed : bool) (d : Driver Sub) :
  0 <= clockCounter d <= 500 ->
  0 <= clockCounter (snd (poll_iteration E elapsed d)) <= 500.
Proof.
  intros Hc. unfold poll_iteration.
  assert (Hstep : forall d1, clockCounter (step_switch_check E d1)
                             = clockCounter d1).
  { intros d1. unfold step_switch_check. destruct (_ && _); reflexivity. }
  destruct (truthy (FCLK (mon (agc d))) || singleClock d).
  - rewrite (pair_eta ((batch E 100 ;; updateAGCDisplay E elapsed) d)).
    cbn [snd]. rewrite Hstep, and_then_snd.
    apply updateAGCDisplay_counter.
    apply (batch_preserves (fun d0 => 0 <= clockCounter d0 <= 500)).
    + intros d0 H0. rewrite tick_clockCounter. exact H0.
    + exact Hc.
  - cbn [snd]. rewrite Hstep. exact Hc.
Qed.

(** X10: [updateAGCDisplay] changes nothing of the machine, and the
    polling loop keeps its counter of undisplayed updates between 0 and
    500: the 501st forces a display, which resets it. *)
Theorem display_counter_bounded :
  (forall elapsed d, agc (snd (updateAGCDisplay E elapsed d)) = agc d)
  /\ (forall clock d,
        0 <= clockCounter d <= 500 ->
        0 <= clockCounter (snd (poll_loop E clock d)) <= 500)
  /\ (forall d,
        truthy (FCLK (mon (agc d))) = true ->
        truthy (RUN (mon (agc d))) = true ->
        displayTimeout d = true -> clockCounter d = 500 ->
        fst (updateAGCDisplay E false d) = [EvDisplay]
        /\ clockCounter (snd (updateAGCDisplay E false d)) = 0).
Proof.
  split; [|split].
  - intros e d. apply updateAGCDisplay_counter.
  - induction clock as [|e clock IH]; intros d Hc; cbn [poll_loop].
    + exact Hc.
    + rewrite and_then_snd. apply IH, poll_iteration_counter, Hc.
  - intros d Hf Hr Ht Hc. unfold updateAGCDisplay.
    rewrite Hf, Hr, Ht, Hc. cbn [orb]. change (500 <? 500 + 1) with true.
    rewrite !orb_true_r. cbn [orb]. split; reflexivity.
Qed.




End FreeRun.

Lemma Mini_keeps_mon : keeps_mon Mini.E.
Proof.
  unfold keeps_mon. cbn [clkAGC controlPulseMatrix doexecR doexecR_ALU
    doexecR_ALU_OR doexecW doexecWP_SCL doexecWP_F17 doexecWP_F13
    doexecWP_F10 doexecWP_TPG Mini.E].
  unfold Mini.execR, Mini.execR_ALU, Mini.execR_ALU_OR, Mini.execW.
  repeat split; intros; try reflexivity; destruct (_ =? _); reflexivity.
Qed.

Lemma batch_free_run_witness :
  exists t d',
    batch Mini.E 100 Mini.driver = (t, d')
    /\ ticks 100 t
    /\ truthy (FCLK (mon (agc d'))) = true
    /\ truthy (RUN (mon (agc d'))) = true.
Proof.
  apply (batch_free_run Mini.E Mini.driver Mini_keeps_mon); reflexivity.
Defined.

Lemma poll_loop_manual_idle_witness :
  poll_loop Mini.E [true; false] (on_mon (set_FCLK 0) Mini.driver)
  = ([], step_switch_check Mini.E (on_mon (set_FCLK 0) Mini.driver)).
Proof.
  apply (poll_loop_manual_idle Mini.E [true; false]
           (on_mon (set_FCLK 0) Mini.driver)).
  - reflexivity.
  - reflexivity.
  - discriminate.
Defined.

Lemma single_clock_one_tick_witness :
  let d0 := snd (key_F1 (on_mon (set_FCLK 0) Mini.driver)) in
  fst (poll_loop Mini.E [true; false; false] d0)
  = fst (tick Mini.E d0) ++ [EvDisplay]
  /\ (exists r alu or w,
        fst (tick Mini.E d0) = EvClk :: generate_trace r alu or w)
  /\ singleClock (snd (poll_loop Mini.E [true; false; false] d0)) = false.
Proof.
  apply (single_clock_one_tick Mini.E [true; false; false]
           (on_mon (set_FCLK 0) Mini.driver) Mini_keeps_mon).
  - reflexivity.
  - discriminate.
Defined.

Lemma display_counter_bounded_witness :
  0 <= clockCounter (snd (poll_loop Mini.E [true; false] Mini.driver)) <= 500.
Proof.
  apply (proj1 (proj2 (display_counter_bounded Mini.E)) [true; false]
           Mini.driver).
  simpl. lia.
Defined.


(** ** [saveMemory] and [loadMemory] *)

(** Case analysis on a number below a bound. *)
Lemma below_cases (P : Z -> Prop) (k : nat) :
  (forall m, (m < k)%nat -> P (Z.of_nat m)) ->
  forall v, 0 <= v < Z.of_nat k -> P v.
Proof.
  intros H v Hv. rewrite <- (Z2Nat.id v) by lia. apply H. lia.
Qed.

Tactic Notation "each_below" integer(k) :=
  let m := fresh "m" in
  let Hm := fresh "Hm" in
  intros m Hm; do k (destruct m as [|m]; [try reflexivity|]); lia.

Lemma octal_char_cases (c : ascii) :
  octal_char c -> In c (list_ascii_of_string "01234567").
Proof.
  intros (v & Hv & ->). revert v Hv.
  apply (below_cases (fun v => In (digit_char v) _) 8).
  intros m Hm.
  do 8 (destruct m as [|m]; [simpl; tauto|]). lia.
Qed.

Ltac octal_cases c H :=
  let Hc := fresh in
  pose proof (octal_char_cases c H) as Hc; simpl in Hc;
  repeat (destruct Hc as [<- | Hc]); [..|contradiction].

Lemma octal_char_digit (c : ascii) :
  octal_char c ->
  digit_value 8 c = Some (Z.of_nat (nat_of_ascii c) - 48)
  /\ is_space c = false
  /\ read_sign [c] = (false, [c]).
Proof. intros H. octal_cases c H; repeat split. Qed.

Lemma read_sign_octal (c : ascii) (l : list ascii) :
  octal_char c -> read_sign (c :: l) = (false, c :: l).
Proof. intros H. octal_cases c H; reflexivity. Qed.

Lemma digit_char_octal (v : Z) :
  0 <= v < 8 ->
  octal_char (digit_char v) /\ Z.of_nat (nat_of_ascii (digit_char v)) - 48 = v.
Proof.
  intros Hv. split; [exists v; auto|]. revert v Hv.
  apply (below_cases
           (fun v => Z.of_nat (nat_of_ascii (digit_char v)) - 48 = v) 8).
  each_below 8.
Qed.

Lemma digits_octal (ds : list ascii) :
  Forall octal_char ds ->
  forall acc rest,
    ends_octal rest ->
    digits 8 acc (ds ++ rest) = (octal_value acc ds, rest).
Proof.
  induction 1 as [|c ds Hc Hds IH]; intros acc rest Hrest; simpl.
  - destruct rest as [|c r]; [reflexivity|].
    simpl in Hrest. simpl. rewrite Hrest. reflexivity.
  - destruct (octal_char_digit c Hc) as (-> & _). apply IH. exact Hrest.
Qed.

Lemma octal_value_app (ds1 ds2 : list ascii) (acc : Z) :
  octal_value acc (ds1 ++ ds2) = octal_value (octal_value acc ds1) ds2.
Proof. apply fold_left_app. Qed.

(** The digits [%o] prints, and the number they denote. *)
Lemma octal_digits_spec (fuel : nat) :
  forall v tl,
    (0 < fuel)%nat ->
    0 <= v < 8 ^ Z.of_nat fuel ->
    exists ds,
      octal_digits fuel v tl = ds ++ tl
      /\ ds <> []
      /\ Forall octal_char ds
      /\ (forall a,
            octal_value a ds = a * 8 ^ Z.of_nat (List.length ds) + v)
      /\ (forall k, (1 <= k)%nat -> v < 8 ^ Z.of_nat k ->
                    (List.length ds <= k)%nat).
Proof.
  induction fuel as [|fuel IH]; intros v tl Hpos Hv.
  - lia.
  - cbn [octal_digits].
    assert (Hm : 0 <= v mod 8 < 8) by (apply Z.mod_pos_bound; lia).
    destruct (digit_char_octal (v mod 8) Hm) as [Hoct Hval].
    destruct (v / 8 =? 0) eqn:Hq.
    + apply Z.eqb_eq in Hq.
      exists [digit_char (v mod 8)]. repeat split.
      * discriminate.
      * constructor; [exact Hoct | constructor].
      * intros a. unfold octal_value. simpl. rewrite Hval.
        pose proof (Z.div_mod v 8). lia.
      * intros k Hk _. simpl. lia.
    + apply Z.eqb_neq in Hq.
      assert (Hv8 : 0 <= v / 8 < 8 ^ Z.of_nat fuel).
      { split; [apply Z.div_pos; lia|].
        apply Z.div_lt_upper_bound; [lia|].
        rewrite Nat2Z.inj_succ, Z.pow_succ_r in Hv by lia. lia. }
      assert (Hpos' : (0 < fuel)%nat).
      { destruct fuel; [|lia]. exfalso. apply Hq. apply Z.div_small.
        simpl in Hv. lia. }
      destruct (IH (v / 8) (digit_char (v mod 8) :: tl) Hpos' Hv8)
        as (ds & Heq & Hne & Hall & Hval' & Hlen).
      exists (ds ++ [digit_char (v mod 8)]). repeat split.
      * rewrite Heq, <- app_assoc. reflexivity.
      * destruct ds; discriminate.
      * apply Forall_app. split; [exact Hall|].
        constructor; [exact Hoct | constructor].
      * intros a. rewrite octal_value_app, Hval'.
        unfold octal_value at 1. simpl. rewrite Hval.
        rewrite length_app, Nat2Z.inj_add. simpl.
        rewrite Z.pow_add_r by lia.
        pose proof (Z.div_mod v 8). lia.
      * intros k Hk Hvk. rewrite length_app. simpl.
        destruct k as [|k]; [lia|].
        destruct k as [|k].
        { exfalso. simpl in Hvk. apply Hq. apply Z.div_small. lia. }
        assert ((List.length ds <= S k)%nat); [|lia].
        apply Hlen; [lia|].
        apply Z.div_lt_upper_bound; [lia|].
        rewrite (Nat2Z.inj_succ (S k)), Z.pow_succ_r in Hvk by lia. lia.
Qed.

Lemma octal_value_zeros (n : nat) (ds : list ascii) :
  octal_value 0 (repeat "0"%char n ++ ds) = octal_value 0 ds.
Proof.
  induction n as [|n IH]; [reflexivity|].
  simpl. unfold octal_value in *. simpl. exact IH.
Qed.

(** [%06o] prints octal digits that denote the number printed, six of them
    when the number is below 8^6. *)
Lemma format_06o_spec (v : Z) :
  0 <= v < 2 ^ 32 ->
  exists c ds,
    format_06o v = c :: ds
    /\ Forall octal_char (c :: ds)
    /\ octal_value 0 (c :: ds) = v
    /\ (v < 8 ^ 6 -> List.length (c :: ds) = 6%nat).
Proof.
  intros Hv. unfold format_06o.
  assert (Hu : to_unsigned v = v) by (apply Z.mod_small; exact Hv).
  rewrite Hu.
  destruct (octal_digits_spec 11 v []) as (ds & Heq & Hne & Hall & Hval & Hlen).
  { lia. }
  { change (8 ^ Z.of_nat 11) with (2 ^ 33). lia. }
  rewrite app_nil_r in Heq. rewrite Heq.
  assert (Hzeros : Forall octal_char (repeat "0"%char (6 - List.length ds))).
  { apply Forall_forall. intros c Hc. apply repeat_spec in Hc. subst c.
    exists 0. split; [lia | reflexivity]. }
  assert (Hpad : Forall octal_char
                   (repeat "0"%char (6 - List.length ds) ++ ds))
    by (apply Forall_app; split; assumption).
  destruct (repeat "0"%char (6 - List.length ds) ++ ds) as [|c l] eqn:Hl.
  { destruct ds; [contradiction|].
    destruct (repeat _ _); discriminate Hl. }
  exists c, l. split; [reflexivity|]. split; [exact Hpad|]. split.
  - rewrite <- Hl, octal_value_zeros, Hval. lia.
  - intros H6. rewrite <- Hl, length_app, repeat_length.
    specialize (Hlen 6%nat). change (8 ^ Z.of_nat 6) with (8 ^ 6) in Hlen.
    assert ((List.length ds <= 6)%nat) by (apply Hlen; lia). lia.
Qed.

Lemma skip_space_spaces (ws l : list ascii) :
  forallb is_space ws = true -> skip_space (ws ++ l) = skip_space l.
Proof.
  induction ws as [|c ws IH]; intros H; [reflexivity|].
  simpl in *. apply andb_prop in H. destruct H as [Hc Hws].
  rewrite Hc. apply IH. exact Hws.
Qed.

(** [%o] on octal digits, after any white space. *)
Lemma scan_o_octal (ws : list ascii) (c : ascii) (ds rest : list ascii) :
  forallb is_space ws = true ->
  Forall octal_char (c :: ds) ->
  ends_octal rest ->
  0 <= octal_value 0 (c :: ds) < 2 ^ 32 ->
  scan_o (ws ++ (c :: ds) ++ rest)
  = Converted (octal_value 0 (c :: ds)) rest.
Proof.
  intros Hws Hall Hrest Hv. unfold scan_o.
  rewrite skip_space_spaces by exact Hws.
  pose proof (Forall_inv Hall) as Hc.
  destruct (octal_char_digit c Hc) as (Hd & Hsp & _).
  change ((c :: ds) ++ rest) with (c :: ds ++ rest).
  cbn [skip_space]. rewrite Hsp.
  rewrite read_sign_octal by exact Hc. rewrite Hd.
  change (c :: ds ++ rest) with ((c :: ds) ++ rest).
  rewrite digits_octal by assumption.
  unfold to_unsigned, strtoul_value, ULONG_MAX.
  replace (2 ^ 64 - 1 <? octal_value 0 (c :: ds)) with false
    by (symmetry; apply Z.ltb_ge; lia).
  rewrite (Z.mod_small _ (2 ^ 64)) by lia.
  rewrite Z.mod_small by exact Hv. reflexivity.
Qed.

(** One record written by [saveMemory] is one pair read by [fscanf]. *)
Lemma fscanf_record (ws rest : list ascii) (a v addr data : Z) :
  forallb is_space ws = true ->
  0 <= a < 2 ^ 32 -> 0 <= v < 2 ^ 32 ->
  fscanf_o_o (ws ++ format_record a v ++ rest) addr data
  = (2, newline_char :: rest, a, v).
Proof.
  intros Hws Ha Hv. unfold fscanf_o_o, format_record.
  destruct (format_06o_spec a Ha) as (ca & dsa & Hfa & Halla & Hvala & _).
  destruct (format_06o_spec v Hv) as (cv & dsv & Hfv & Hallv & Hvalv & _).
  rewrite Hfa, Hfv.
  replace (ws ++ ((ca :: dsa) ++ " "%char :: (cv :: dsv) ++ [newline_char])
           ++ rest)
    with (ws ++ (ca :: dsa)
          ++ (" "%char :: (cv :: dsv) ++ newline_char :: rest))
    by (simpl; rewrite <- !app_assoc; simpl; rewrite <- !app_assoc;
        reflexivity).
  rewrite scan_o_octal; [|exact Hws|exact Halla|reflexivity|lia].
  change (" "%char :: (cv :: dsv) ++ newline_char :: rest)
    with ([" "%char] ++ (cv :: dsv) ++ newline_char :: rest).
  rewrite (scan_o_octal [" "%char] cv dsv (newline_char :: rest));
    [|reflexivity|exact Hallv|reflexivity|lia].
  rewrite Hvala, Hvalv. reflexivity.
Qed.

Lemma addresses_succ (addr : Z) (count : nat) :
  addresses addr (S count) = addr :: addresses (addr + 1) count.
Proof.
  unfold addresses. cbn [List.seq map]. rewrite Z.add_0_r. f_equal.
  rewrite <- seq_shift, map_map. apply map_ext. intros k. lia.
Qed.

Section RoundTrip.

Context {Sub : Type} (E : Subsystems Sub).

Variable s : Sub.
Hypothesis word_unsigned : forall a, 0 <= readMemory E a s < 2 ^ 32.

Lemma load_saved_records (count : nat) :
  forall fuel ws addr a0 d0 m,
    (count < fuel)%nat ->
    forallb is_space ws = true ->
    0 <= addr -> addr + Z.of_nat count <= 2 ^ 32 ->
    load_records E fuel (ws ++ save_records E count addr s) a0 d0 m
    = Some (map (fun a => EvWriteMemory a (readMemory E a s))
                (addresses addr count),
            fold_left (fun m a => writeMemory E a (readMemory E a s) m)
                      (addresses addr count) m).
Proof.
  induction count as [|count IH]; intros fuel ws addr a0 d0 m Hf Hws Ha Hb;
    (destruct fuel as [|fuel]; [lia|]); cbn [load_records save_records].
  - rewrite app_nil_r. unfold fscanf_o_o, scan_o.
    rewrite <- (app_nil_r ws), skip_space_spaces by exact Hws.
    reflexivity.
  - rewrite fscanf_record; [|exact Hws|lia|apply word_unsigned].
    cbn [Z.eqb EOF]. change (2 =? -1) with false. cbv iota.
    change (newline_char :: save_records E count (addr + 1) s)
      with ([newline_char] ++ save_records E count (addr + 1) s).
    rewrite IH; [|lia|reflexivity|lia|lia].
    rewrite addresses_succ. reflexivity.
Qed.

End RoundTrip.

Section SaveAndLoad.

Context {Sub : Type} (E : Subsystems Sub).

(** X12: a file written by [saveMemory] loads back in full, the name
    typed fitting the buffer for the file name: [loadMemory] ends and
    calls [MEM::writeMemory] once for each address from 020 to 031777, in
    order, with the word [saveMemory] read there. *)
Theorem saveMemory_loadMemory (writable : string -> bool)
  (files files' : string -> option string) (line : string) (a0 d0 : Z)
  (fuel : nat) (d : Driver Sub) :
  (String.length line <= 75)%nat ->
  (forall a, 0 <= readMemory E a (sub (agc d)) < 2 ^ 32) ->
  saveMemory E writable files (line ++ ".obj") (sub (agc d)) = Some files' ->
  (saved_addresses < fuel)%nat ->
  let word a := readMemory E a (sub (agc d)) in
  loadMemory E files' line a0 d0 fuel d
  = Loaded ([EvPrint newline]
            ++ map (fun a => EvWriteMemory a (word a))
                   (addresses 16 saved_addresses)
            ++ [EvPrint ("Memory loaded." ++ newline)])
           (set_agc (fold_left (fun m a => writeMemory E a (word a) m)
                               (addresses 16 saved_addresses) (agc d))
                    (set_filename line d)).
Proof.
  intros Hlen Hword Hsave Hfuel word.
  assert (Hbound : 16 + Z.of_nat saved_addresses <= 2 ^ 32).
  { unfold saved_addresses. rewrite Z2Nat.id; lia. }
  pose proof (load_saved_records E (sub (agc d)) Hword saved_addresses fuel
                [] 16 a0 d0 (agc d) Hfuel eq_refl ltac:(lia) Hbound)
    as Hload.
  clear Hbound Hfuel. unfold saveMemory in Hsave. unfold loadMemory.
  replace (Nat.ltb 75 (String.length line)) with false
    by (symmetry; apply Nat.ltb_ge; exact Hlen).
  revert Hload Hsave. generalize saved_addresses as n. intros n Hload Hsave.
  destruct (writable (line ++ ".obj")%string); [|discriminate].
  injection Hsave as <-.
  rewrite String.eqb_refl, list_ascii_of_string_of_list_ascii.
  cbn [agc set_filename].
  cbn [app] in Hload. rewrite Hload. reflexivity.
Qed.

End SaveAndLoad.

Lemma saveMemory_loadMemory_witness :
  let word a := readMemory Mini.E a (sub (agc Mini.driver)) in
  loadMemory Mini.E core_files "core" 0 0 (S saved_addresses) Mini.driver
  = Loaded ([EvPrint newline]
            ++ map (fun a => EvWriteMemory a (word a))
                   (addresses 16 saved_addresses)
            ++ [EvPrint ("Memory loaded." ++ newline)])
           (set_agc (fold_left (fun m a => writeMemory Mini.E a (word a) m)
                               (addresses 16 saved_addresses)
                               (agc Mini.driver))
                    (set_filename "core" Mini.driver)).
Proof.
  apply (saveMemory_loadMemory Mini.E (fun _ => true) Mini.files core_files).
  - simpl. lia.
  - intros a. change (0 <= 0 < 2 ^ 32). lia.
  - reflexivity.
  - apply Nat.lt_succ_diag_r.
Defined.

Lemma octal6_spec (l : list ascii) :
  Forall octal_char l -> List.length l = 6%nat -> octal6 l = true.
Proof.
  intros Hall Hlen. unfold octal6. rewrite Hlen. cbn [Nat.eqb andb].
  apply forallb_forall. intros c Hc.
  rewrite Forall_forall in Hall.
  destruct (octal_char_digit c (Hall c Hc)) as (-> & _). reflexivity.
Qed.

Lemma firstn_skipn_6 {A} (l rest : list A) :
  List.length l = 6%nat ->
  firstn 6 (l ++ rest) = l /\ skipn 6 (l ++ rest) = rest.
Proof.
  intros Hlen.
  do 6 (destruct l as [|? l]; [discriminate|]).
  destruct l; [split; reflexivity | discriminate].
Qed.

Lemma format_record_app (a v : Z) (rest : list ascii) :
  format_record a v ++ rest
  = format_06o a ++ " "%char :: format_06o v ++ newline_char :: rest.
Proof.
  unfold format_record. rewrite <- app_assoc. cbn [app].
  rewrite <- app_assoc. reflexivity.
Qed.

(** A line of two six-digit octal fields is one well-formed record. *)
Lemma well_formed_record (fuel : nat) (fa fv rest : list ascii) :
  Forall octal_char fa -> Forall octal_char fv ->
  List.length fa = 6%nat -> List.length fv = 6%nat ->
  well_formed_records (S fuel) (fa ++ " "%char :: fv ++ newline_char :: rest)
  = well_formed_records fuel rest.
Proof.
  intros Ha Hv Hla Hlv.
  pose proof (octal6_spec fa Ha Hla) as Hoa.
  pose proof (octal6_spec fv Hv Hlv) as Hov.
  do 6 (destruct fa as [|? fa]; [discriminate|]).
  destruct fa; [|discriminate].
  do 6 (destruct fv as [|? fv]; [discriminate|]).
  destruct fv; [|discriminate].
  cbn [well_formed_records app firstn skipn].
  rewrite Hoa, Hov. reflexivity.
Qed.

Section Saved.

Context {Sub : Type} (E : Subsystems Sub).

Variable s : Sub.
Hypothesis word_six_digits : forall a, 0 <= readMemory E a s < 8 ^ 6.

Lemma save_records_well_formed (count : nat) :
  forall fuel addr,
    (count < fuel)%nat ->
    0 <= addr -> addr + Z.of_nat count <= 8 ^ 6 ->
    well_formed_records fuel (save_records E count addr s) = true.
Proof.
  induction count as [|count IH]; intros fuel addr Hf Ha Hb;
    (destruct fuel as [|fuel]; [lia|]); cbn [save_records].
  - reflexivity.
  - rewrite format_record_app.
    destruct (format_06o_spec addr) as (ca & dsa & Hfa & Halla & _ & Hlena);
      [lia|].
    destruct (format_06o_spec (readMemory E addr s))
      as (cv & dsv & Hfv & Hallv & _ & Hlenv).
    { pose proof (word_six_digits addr). lia. }
    rewrite Hfa, Hfv.
    rewrite well_formed_record;
      [apply IH; lia | exact Halla | exact Hallv | apply Hlena; lia
      | apply Hlenv, word_six_digits].
Qed.

Lemma save_records_length (count : nat) :
  forall addr, (count <= List.length (save_records E count addr s))%nat.
Proof.
  induction count as [|count IH]; intros addr; cbn [save_records].
  - lia.
  - unfold format_record. rewrite !length_app. cbn [List.length].
    rewrite !length_app. specialize (IH (addr + 1)). cbn [List.length]. lia.
Qed.

End Saved.

Section SavedFile.

Context {Sub : Type} (E : Subsystems Sub).

(** X13: when every word of memory is below 01000000, the file
    [saveMemory] writes is well formed: one record per line, each of two
    six-digit octal fields. *)
Theorem saveMemory_well_formed (writable : string -> bool)
  (files files' : string -> option string) (name : string) (s : Sub) :
  (forall a, 0 <= readMemory E a s < 8 ^ 6) ->
  saveMemory E writable files name s = Some files' ->
  exists text,
    files' name = Some text
    /\ well_formed_obj text = true
    /\ forall other, other <> name -> files' other = files other.
Proof.
  intros Hword Hsave.
  assert (Hbound : 16 + Z.of_nat saved_addresses <= 8 ^ 6).
  { unfold saved_addresses. rewrite Z2Nat.id; lia. }
  pose proof (fun fuel Hf =>
                save_records_well_formed E s Hword saved_addresses fuel 16 Hf
                  ltac:(lia) Hbound) as Hwf.
  pose proof (save_records_length E s saved_addresses 16) as Hlen.
  clear Hbound. unfold saveMemory in Hsave.
  revert Hwf Hlen Hsave. generalize saved_addresses as n.
  intros n Hwf Hlen Hsave.
  destruct (writable name); [|discriminate].
  injection Hsave as <-.
  exists (string_of_list_ascii (save_records E n 16 s)).
  rewrite String.eqb_refl. split; [reflexivity|]. split.
  - unfold well_formed_obj. rewrite list_ascii_of_string_of_list_ascii.
    apply Hwf. lia.
  - intros other Hne. apply String.eqb_neq in Hne. rewrite Hne. reflexivity.
Qed.

End SavedFile.

Lemma saveMemory_well_formed_witness :
  exists text,
    core_files "core.obj" = Some text
    /\ well_formed_obj text = true
    /\ forall other,
        other <> "core.obj"%string -> core_files other = Mini.files other.
Proof.
  apply (saveMemory_well_formed Mini.E (fun _ => true) Mini.files core_files
           "core.obj" (sub (agc Mini.driver))).
  - intros a. change (0 <= 0 < 8 ^ 6). lia.
  - reflexivity.
Defined.

(** ** A file that is no object file *)

Lemma skip_space_head (l : list ascii) (c : ascii) (r : list ascii) :
  skip_space l = c :: r -> is_space c = false.
Proof.
  induction l as [|a l IH]; simpl; [discriminate|].
  destruct (is_space a) eqn:Ha; [exact IH|].
  intros H. injection H as <- _. exact Ha.
Qed.

Lemma read_sign_other (c : ascii) (r : list ascii) :
  c <> "-"%char -> c <> "+"%char -> read_sign (c :: r) = (false, c :: r).
Proof.
  intros Hm Hp.
  destruct c as [[] [] [] [] [] [] [] []]; try reflexivity;
    exfalso; [apply Hp | apply Hm]; reflexivity.
Qed.

Section Junk.

Context {Sub : Type} (E : Subsystems Sub).

Lemma load_records_junk (c : ascii) (r : list ascii) :
  is_space c = false -> c <> "-"%char -> c <> "+"%char ->
  digit_value 8 c = None ->
  forall fuel addr data s,
    load_records E fuel (c :: r) addr data s = None.
Proof.
  intros Hsp Hm Hp Hd.
  assert (Hscan : forall addr data,
             fscanf_o_o (c :: r) addr data = (0, c :: r, addr, data)).
  { intros addr data. unfold fscanf_o_o, scan_o. cbn [skip_space].
    rewrite Hsp, (read_sign_other c r Hm Hp), Hd. reflexivity. }
  induction fuel as [|fuel IH]; intros addr data s; cbn [load_records].
  - reflexivity.
  - rewrite Hscan. change (0 =? EOF) with false. cbv iota.
    rewrite IH. reflexivity.
Qed.

(** X14: when the name typed fits the buffer for the file name and the
    first character of the object file after white space is neither a sign
    nor an octal digit, [fscanf] fails to match without
    reading it and never answers [EOF]: the loop of [loadMemory] goes on
    calling [MEM::writeMemory] with the uninitialised pair, and
    [loadMemory] does not return, however long it runs. *)
Theorem loadMemory_junk_never_returns (fopen : string -> option string)
  (line contents : string) (c : ascii) (r : list ascii) (addr0 data0 : Z)
  (d : Driver Sub) :
  (String.length line <= 75)%nat ->
  fopen (line ++ ".obj")%string = Some contents ->
  skip_space (list_ascii_of_string contents) = c :: r ->
  c <> "-"%char -> c <> "+"%char -> digit_value 8 c = None ->
  fscanf_o_o (list_ascii_of_string contents) addr0 data0
  = (0, c :: r, addr0, data0)
  /\ forall fuel, loadMemory E fopen line addr0 data0 fuel d = LoadUnended.
Proof.
  intros Hlen Hopen Hskip Hm Hp Hd.
  pose proof (skip_space_head _ _ _ Hskip) as Hsp.
  assert (Hscan : fscanf_o_o (list_ascii_of_string contents) addr0 data0
                  = (0, c :: r, addr0, data0)).
  { unfold fscanf_o_o, scan_o.
    rewrite Hskip, (read_sign_other c r Hm Hp), Hd. reflexivity. }
  split; [exact Hscan|].
  intros fuel. unfold loadMemory.
  replace (Nat.ltb 75 (String.length line)) with false
    by (symmetry; apply Nat.ltb_ge; exact Hlen).
  rewrite Hopen.
  destruct fuel as [|fuel]; [reflexivity|].
  cbn [load_records]. rewrite Hscan. change (0 =? EOF) with false.
  cbv iota. rewrite load_records_junk by assumption. reflexivity.
Qed.

End Junk.

Lemma loadMemory_junk_never_returns_witness :
  fscanf_o_o (list_ascii_of_string " x20 7") 0 0
  = (0, list_ascii_of_string "x20 7", 0, 0)
  /\ forall fuel, loadMemory Mini.E junk_files "junk" 0 0 fuel Mini.driver
                  = LoadUnended.
Proof.
  apply (loadMemory_junk_never_returns Mini.E junk_files "junk" " x20 7"
           "x"%char (list_ascii_of_string "20 7") 0 0 Mini.driver).
  - simpl. lia.
  - reflexivity.
  - reflexivity.
  - discriminate.
  - discriminate.
  - reflexivity.
Defined.

(** ** [examineMemory] *)

Section Examine.

Context {Sub : Type} (E : Subsystems Sub).

Lemma examine_from_step (i limit : Z) (s : Sub) :
  examine_from E i limit s
  = if i <? limit
    then EvPrint (string_of_list_ascii (format_examine i (readMemory E i s)))
         :: examine_from E (i + 1) limit s
    else [].
Proof.
  funelim (examine_from E i limit s);
    match goal with H : (_ <? _) = _ |- _ => rewrite H end; reflexivity.
Qed.

Lemma examine_from_count (s : Sub) (n : nat) :
  forall i limit,
    limit - i = Z.of_nat n ->
    examine_from E i limit s
    = map (fun a => EvPrint (string_of_list_ascii
                               (format_examine a (readMemory E a s))))
          (addresses i n).
Proof.
  induction n as [|n IH]; intros i limit Hn; rewrite examine_from_step.
  - replace (i <? limit) with false by (symmetry; apply Z.ltb_ge; lia).
    reflexivity.
  - replace (i <? limit) with true by (symmetry; apply Z.ltb_lt; lia).
    rewrite addresses_succ, (IH (i + 1) limit) by lia. reflexivity.
Qed.

(** X15: for a line that fits [char theAddress[20]], [examineMemory]
    prints the 23 words from the address typed on, in order; but when the
    address is within 23 of the top of the [unsigned] range, such as
    37777777777 or -1, the bound of its loop wraps around and it prints no
    word at all.  A line of 20 characters or more is stored past the end
    of the buffer. *)
Theorem examineMemory_lines (line : string) (s : Sub) :
  let address := to_unsigned (strtol 8 line) in
  ((String.length line <= 19)%nat ->
   address + 23 < 2 ^ 32 ->
   examineMemory E line s
   = Some (EvPrint newline
           :: map (fun a => EvPrint (string_of_list_ascii
                                       (format_examine a (readMemory E a s))))
                  (addresses address 23)))
  /\ ((String.length line <= 19)%nat ->
      2 ^ 32 <= address + 23 ->
      examineMemory E line s = Some [EvPrint newline])
  /\ ((19 < String.length line)%nat -> examineMemory E line s = None).
Proof.
  intros address.
  assert (Ha : 0 <= address < 2 ^ 32)
    by (apply Z.mod_pos_bound; reflexivity).
  unfold examineMemory. fold address. split; [|split].
  - intros Hlen H.
    replace (Nat.ltb 19 (String.length line)) with false
      by (symmetry; apply Nat.ltb_ge; exact Hlen).
    do 2 f_equal.
    apply examine_from_count. unfold to_unsigned.
    rewrite Z.mod_small by lia. lia.
  - intros Hlen H.
    replace (Nat.ltb 19 (String.length line)) with false
      by (symmetry; apply Nat.ltb_ge; exact Hlen).
    do 2 f_equal. rewrite examine_from_step.
    assert (Hw : to_unsigned (address + 23) = address + 23 - 2 ^ 32).
    { unfold to_unsigned. symmetry.
      apply (Z.mod_unique (address + 23) (2 ^ 32) 1); lia. }
    rewrite Hw.
    replace (address <? address + 23 - 2 ^ 32) with false
      by (symmetry; apply Z.ltb_ge; lia).
    reflexivity.
  - intros Hlen. apply Nat.ltb_lt in Hlen. rewrite Hlen. reflexivity.
Qed.

End Examine.

Lemma examineMemory_lines_witness :
  option_map (@List.length Event)
    (examineMemory Mini.E "20" (sub (agc Mini.driver))) = Some 24%nat
  /\ examineMemory Mini.E "-1" (sub (agc Mini.driver))
     = Some [EvPrint newline]
  /\ examineMemory Mini.E "00000000000000000020" (sub (agc Mini.driver))
     = None.
Proof.
  destruct (examineMemory_lines Mini.E "20" (sub (agc Mini.driver)))
    as (H20 & _ & _).
  destruct (examineMemory_lines Mini.E "-1" (sub (agc Mini.driver)))
    as (_ & Hm1 & _).
  destruct (examineMemory_lines Mini.E "00000000000000000020"
              (sub (agc Mini.driver))) as (_ & _ & Hlong).
  split; [|split].
  - rewrite H20 by (vm_compute; try reflexivity; lia). reflexivity.
  - apply Hm1; [simpl; lia | vm_compute; discriminate].
  - apply Hlong. simpl. lia.
Defined.

(** ** The display of G *)

Lemma mask_0137777_bits (n : Z) :
  0 <= n -> Z.testbit 49151 n = (n <? 16) && negb (n =? 14).
Proof.
  intros Hn. destruct (n <? 16) eqn:H16.
  - apply Z.ltb_lt in H16. revert n Hn H16.
    assert (H : forall n, 0 <= n < Z.of_nat 16 ->
                          Z.testbit 49151 n = true && negb (n =? 14)).
    { apply (below_cases
               (fun n => Z.testbit 49151 n = true && negb (n =? 14)) 16).
      each_below 16. }
    intros n Hn H16. apply H. simpl. lia.
  - apply Z.ltb_ge in H16. apply Z.bits_above_log2; [lia|].
    change (Z.log2 49151) with 15. lia.
Qed.

(** X16: in the word [MON::displayAGC] shows for G, bit 15 (of weight
    2^14) is the parity bit held in [G15], and each other bit of the
    sixteen is the bit of register [G]; no higher bit is set. *)
Theorem display_G_bits (G G15 n : Z) :
  0 <= G15 <= 1 -> 0 <= n ->
  Z.testbit (display_G G G15) n
  = if n =? 14 then Z.testbit G15 0 else (n <? 16) && Z.testbit G n.
Proof.
  intros H15 Hn. unfold display_G.
  rewrite Z.lor_spec, Z.land_spec, Z.shiftl_spec, mask_0137777_bits
    by exact Hn.
  destruct (n =? 14) eqn:H14.
  - apply Z.eqb_eq in H14. subst n. cbn [Z.ltb negb andb].
    rewrite andb_false_r. reflexivity.
  - apply Z.eqb_neq in H14. cbn [negb]. rewrite andb_true_r.
    assert (Hhigh : Z.testbit G15 (n - 14) = false).
    { destruct (Z.lt_ge_cases n 14) as [Hlt|Hge].
      - apply Z.testbit_neg_r. lia.
      - assert (G15 = 0 \/ G15 = 1) as [-> | ->] by lia.
        + apply Z.bits_0.
        + apply Z.bits_above_log2; [lia | simpl; lia]. }
    rewrite Hhigh, orb_false_r. apply andb_comm.
Qed.

Lemma display_G_bits_witness :
  Z.testbit (display_G 65535 0) 14
  = if 14 =? 14 then Z.testbit 0 0 else (14 <? 16) && Z.testbit 65535 14.
Proof. apply (display_G_bits 65535 0 14); lia. Defined.

(** ** The request lines, within range *)

Lemma array_store_out_of_range (extent : Z) (a : nat -> Z) (i v : Z) :
  ~ 0 <= i < extent -> array_store extent a i v = None.
Proof.
  intros H. unfold array_store.
  destruct ((0 <=? i) && (i <? extent)) eqn:Hb; [|reflexivity].
  apply andb_prop in Hb. destruct Hb as [H0 H1].
  apply Z.leb_le in H0. apply Z.ltb_lt in H1. lia.
Qed.

(** X17: with [n] the value of [atoi] on the line typed, that is the
    number typed as [strtol] reads it, reduced to an [int]: the counter
    commands are defined exactly for [n] from 0 to 6 and the interrupt
    command for [n] from 1 to 5; there they raise the one request line
    asked for and change nothing else of the machine, and for any other [n]
    they store outside the array. *)
Theorem request_line_commands {Sub} (line : string) (s : AGC Sub) :
  let n := atoi line in
  (0 <= n < 7 ->
   exists up dn,
     incrCntr line s = Some (set_pcUp up s)
     /\ decrCntr line s = Some (set_pcDn dn s)
     /\ up (Z.to_nat n) = 1 /\ dn (Z.to_nat n) = 1
     /\ forall k, k <> Z.to_nat n -> up k = pcUp s k /\ dn k = pcDn s k)
  /\ (~ 0 <= n < 7 -> incrCntr line s = None /\ decrCntr line s = None)
  /\ (1 <= n <= 5 ->
      exists r,
        interrupt line s = Some (set_rupt r s)
        /\ r (Z.to_nat (n - 1)) = 1
        /\ forall k, k <> Z.to_nat (n - 1) -> r k = rupt s k)
  /\ (~ 1 <= n <= 5 -> interrupt line s = None).
Proof.
  intros n. unfold incrCntr, decrCntr, interrupt. fold n.
  split; [|split; [|split]].
  - intros Hn.
    destruct (array_store_in_range pcell_extent (pcUp s) n 1 Hn)
      as (up & -> & Hup & Hup').
    destruct (array_store_in_range pcell_extent (pcDn s) n 1 Hn)
      as (dn & -> & Hdn & Hdn').
    exists up, dn.
    split; [reflexivity|]. split; [reflexivity|].
    split; [exact Hup|]. split; [exact Hdn|].
    intros k Hk. split; [apply Hup' | apply Hdn']; exact Hk.
  - intros Hn.
    rewrite !array_store_out_of_range by exact Hn. split; reflexivity.
  - intros Hn.
    destruct (array_store_in_range rupt_extent (rupt s) (n - 1) 1)
      as (r & -> & Hr & Hr'); [unfold rupt_extent; lia|].
    exists r. split; [reflexivity|]. split; [exact Hr | exact Hr'].
  - intros Hn. rewrite array_store_out_of_range; [reflexivity|].
    unfold rupt_extent. lia.
Qed.

(** 4294967299 is 3 as an [int]: the counter commands take it. *)
Lemma request_line_commands_witness :
  atoi "4294967299" = 3
  /\ exists up dn,
    incrCntr "4294967299" Mini.machine = Some (set_pcUp up Mini.machine)
    /\ decrCntr "4294967299" Mini.machine = Some (set_pcDn dn Mini.machine)
    /\ up (Z.to_nat (atoi "4294967299")) = 1
    /\ dn (Z.to_nat (atoi "4294967299")) = 1
    /\ forall k, k <> Z.to_nat (atoi "4294967299") ->
                 up k = pcUp Mini.machine k /\ dn k = pcDn Mini.machine k.
Proof.
  split; [vm_compute; reflexivity|].
  apply (proj1 (request_line_commands "4294967299" Mini.machine)).
  change (0 <= 3 < 7). lia.
Defined.

(** ** [showSourceCode] *)

Local Open Scope nat_scope.

Lemma fgets_read_spec (room : nat) :
  forall l chunk rest e,
    fgets_read room l = (chunk, rest, e) ->
    l = chunk ++ rest /\ (e = true -> rest = [])
    /\ (l <> [] -> (0 < room)%nat -> chunk <> []).
Proof.
  induction room as [|room IH]; intros l chunk rest e H; simpl in H.
  - injection H as <- <- <-. repeat split; try discriminate. lia.
  - destruct l as [|c r].
    + injection H as <- <- <-. repeat split; auto.
    + destruct (is_newline c).
      * injection H as <- <- <-. repeat split; discriminate.
      * destruct (fgets_read room r) as [[ch rs] e'] eqn:Hr.
        injection H as <- <- <-.
        destruct (IH _ _ _ _ Hr) as (Hl & He & _).
        repeat split; [rewrite Hl; reflexivity | exact He | discriminate].
Qed.

Lemma mod10_distinct (i j : nat) :
  (j < i)%nat -> (i <= j + 9)%nat -> Nat.eqb (j mod 10) (i mod 10) = false.
Proof.
  intros H1 H2. apply Nat.eqb_neq. intros Heq.
  pose proof (Nat.div_mod_eq i 10). pose proof (Nat.div_mod_eq j 10).
  lia.
Qed.

Lemma chunked_inv_nil (cs : list (list ascii)) : chunked [] cs -> cs = [].
Proof. inversion 1. reflexivity. Qed.

Lemma chunked_nil_inv (l : list ascii) : chunked l [] -> l = [].
Proof. inversion 1. reflexivity. Qed.


Lemma offset_app (pre r : list (list ascii)) :
  offset (pre ++ r) (List.length pre) = List.length (List.concat pre).
Proof.
  unfold offset. rewrite firstn_app, Nat.sub_diag, firstn_all. simpl.
  rewrite app_nil_r. reflexivity.
Qed.

Lemma chunked_suffix (l : list ascii) (cs : list (list ascii)) :
  chunked l cs ->
  forall i, chunked (skipn (offset cs i) l) (skipn i cs).
Proof.
  induction 1 as [|c l chunk rest e cs Hread Hcs IH]; intros i.
  - destruct i; constructor.
  - destruct i as [|i].
    + simpl. econstructor; eassumption.
    + destruct (fgets_read_spec _ _ _ _ _ Hread) as (Hl & _).
      unfold offset. cbn [firstn List.concat skipn]. rewrite Hl, length_app.
      rewrite skipn_app.
      replace (List.length chunk + List.length (List.concat (firstn i cs))
               - List.length chunk)%nat
        with (offset cs i) by (unfold offset; lia).
      rewrite skipn_all2 by lia. apply IH.
Qed.

Lemma skipn_read (pos : nat) (content chunk rest : list ascii) :
  skipn pos content = chunk ++ rest ->
  skipn (pos + List.length chunk) content = rest.
Proof.
  intros H. rewrite Nat.add_comm, <- skipn_skipn, H, skipn_app.
  rewrite skipn_all, Nat.sub_diag. reflexivity.
Qed.

(** Once the address is found: the pieces from the stream position on are
    displayed, 23 at most. *)
Lemma source_loop_show (content : list ascii) (CADR : string)
  (cs : list (list ascii)) :
  forall fuel pos e op fo n sh,
    chunked (skipn pos content) cs ->
    (e = true -> cs = []) ->
    (n < 23)%nat ->
    (List.length cs + 1 < fuel)%nat ->
    source_loop fuel content CADR (mkSource pos e op fo true n sh)
    = Some (sh ++ flat_map (source_line CADR) (firstn (23 - n) cs)).
Proof.
  induction cs as [|ch cs IH]; intros fuel pos e op fo n sh Hch He Hn Hf;
    (destruct fuel as [|fuel]; [simpl in Hf; lia|]);
    cbn [source_loop src_eof src_found src_pos src_op src_foffset src_lines
         src_shown].
  - rewrite firstn_nil. cbn [flat_map]. rewrite app_nil_r.
    destruct e; [reflexivity|].
    rewrite (chunked_nil_inv _ Hch). cbn [fgets_read].
    destruct fuel as [|fuel]; [simpl in Hf; lia|]. reflexivity.
  - destruct e; [discriminate (He eq_refl)|].
    inversion Hch as [|c l chunk rest e' cs' Hread Hrest Hl Hcs]. subst.
    rewrite Hread.
    destruct (fgets_read_spec _ _ _ _ _ Hread) as (Happ & Heof & Hne).
    destruct ch as [|c0 ch]; [exfalso; apply Hne; [discriminate|lia|reflexivity]|].
    destruct (Nat.leb 23 (n + 1)) eqn:Hlast.
    + apply Nat.leb_le in Hlast. replace (23 - n)%nat with 1%nat by lia.
      cbn [firstn flat_map]. rewrite app_nil_r. reflexivity.
    + apply Nat.leb_gt in Hlast.
      rewrite IH.
      * replace (23 - n)%nat with (S (23 - (n + 1))) by lia.
        cbn [firstn flat_map]. rewrite app_assoc. reflexivity.
      * assert (Hsk : skipn pos content = (c0 :: ch) ++ rest) by congruence.
        rewrite (skipn_read _ _ _ _ Hsk). exact Hrest.
      * intros Htrue. specialize (Heof Htrue). subst rest.
        apply chunked_inv_nil. exact Hrest.
      * lia.
      * simpl in Hf. lia.
Qed.


Lemma ring_start (cs : list (list ascii)) : ring cs 0 (fun _ => 0%nat).
Proof. split; intros; [lia | reflexivity]. Qed.

Lemma ring_step (cs : list (list ascii)) (i : nat) (fo : nat -> nat) :
  ring cs i fo ->
  ring cs (S i)
       (fun m => if Nat.eqb m (i mod 10) then offset cs i else fo m).
Proof.
  intros [Hlast Hzero]. split.
  - intros j Hj Hi. destruct (Nat.eq_dec j i) as [->|Hne].
    + rewrite Nat.eqb_refl. reflexivity.
    + rewrite mod10_distinct by lia. apply Hlast; lia.
  - intros m Hm Hm10.
    rewrite (Nat.mod_small i 10) by lia.
    replace (Nat.eqb m i) with false by (symmetry; apply Nat.eqb_neq; lia).
    apply Hzero; lia.
Qed.

Lemma ring_seek (cs : list (list ascii)) (k : nat) (fo : nat -> nat) :
  ring cs (S k) fo -> fo (S k mod 10) = offset cs (k - 9).
Proof.
  intros [Hlast Hzero]. destruct (Nat.le_gt_cases 9 k) as [H9|H9].
  - replace (S k) with (k - 9 + 1 * 10)%nat at 1 by lia.
    rewrite Nat.Div0.mod_add. apply Hlast; lia.
  - rewrite Nat.mod_small by lia.
    replace (k - 9)%nat with 0%nat by lia. apply Hzero; lia.
Qed.

Lemma offset_succ (pre : list (list ascii)) (x : list ascii)
  (r : list (list ascii)) :
  offset (pre ++ x :: r) (S (List.length pre))
  = (offset (pre ++ x :: r) (List.length pre) + List.length x)%nat.
Proof.
  rewrite offset_app.
  replace (pre ++ x :: r) with ((pre ++ [x]) ++ r)
    by (rewrite <- app_assoc; reflexivity).
  replace (S (List.length pre)) with (List.length (pre ++ [x]))
    by (rewrite length_app; simpl; lia).
  rewrite offset_app, concat_app, length_app. simpl.
  rewrite app_nil_r. reflexivity.
Qed.

Lemma succ_mod10 (i : nat) : ((i mod 10 + 1) mod 10 = S i mod 10)%nat.
Proof.
  rewrite Nat.Div0.add_mod_idemp_l. f_equal. lia.
Qed.

(** The search: pieces are read until one has the address; then the stream
    is set back to the piece nine before it, or to the start. *)
Lemma source_loop_search (content : list ascii) (CADR : string)
  (cs : list (list ascii)) (Hch : chunked content cs)
  (r1 : list (list ascii)) :
  forall pre ch r2 fuel fo,
    cs = pre ++ r1 ++ ch :: r2 ->
    Forall (fun x => source_hit CADR x = false) r1 ->
    source_hit CADR ch = true ->
    ring cs (List.length pre) fo ->
    (List.length r1 + List.length cs + 3 < fuel)%nat ->
    source_loop fuel content CADR
      (mkSource (offset cs (List.length pre)) false (List.length pre mod 10)
                fo false 0 [])
    = Some (flat_map (source_line CADR)
              (firstn 23 (skipn (List.length pre + List.length r1 - 9) cs))).
Proof.
  induction r1 as [|x r1 IH]; intros pre ch r2 fuel fo Hcs Hmiss Hhit
    Hring Hf;
    (destruct fuel as [|fuel]; [lia|]);
    cbn [source_loop src_eof src_found src_pos src_op src_foffset src_lines
         src_shown];
    pose proof (chunked_suffix _ _ Hch (List.length pre)) as Hsuf;
    rewrite Hcs in Hsuf at 2;
    rewrite skipn_app, skipn_all, Nat.sub_diag in Hsuf;
    cbn [app skipn] in Hsuf;
    remember (skipn (offset cs (List.length pre)) content) as input
      eqn:Hinput;
    inversion Hsuf as [|c l chunk rest e' cs' Hread Hrest Hl Hcs'];
    rewrite Hread;
    destruct (fgets_read_spec _ _ _ _ _ Hread) as (Happ & Heof & Hne);
    pose proof (ring_step _ _ _ Hring) as Hring'.
  - destruct ch as [|c0 ch];
      [exfalso; apply Hne; [discriminate|lia|reflexivity]|].
    rewrite Hhit, succ_mod10.
    rewrite (ring_seek _ _ _ Hring').
    rewrite source_loop_show with (cs := skipn (List.length pre - 9) cs).
    + simpl. rewrite Nat.add_0_r. reflexivity.
    + apply chunked_suffix. exact Hch.
    + discriminate.
    + lia.
    + rewrite length_skipn. simpl in Hf. lia.
  - destruct x as [|c0 x];
      [exfalso; apply Hne; [discriminate|lia|reflexivity]|].
    apply Forall_cons_iff in Hmiss. destruct Hmiss as [Hx Hmiss'].
    rewrite Hx, succ_mod10.
    assert (Hcs2 : cs = (pre ++ [c0 :: x]) ++ r1 ++ ch :: r2)
      by (rewrite Hcs, <- app_assoc; reflexivity).
    assert (Hlen : List.length (pre ++ [c0 :: x]) = S (List.length pre))
      by (rewrite length_app; simpl; lia).
    assert (Hoff : (offset cs (List.length pre) + List.length (c0 :: x))%nat
                   = offset cs (S (List.length pre))).
    { rewrite Hcs. cbn [app]. rewrite offset_succ. reflexivity. }
    rewrite Hoff.
    destruct e'.
    { exfalso. specialize (Heof eq_refl). subst rest.
      apply chunked_inv_nil in Hrest. destruct r1; discriminate. }
    rewrite <- Hlen.
    rewrite (IH (pre ++ [c0 :: x]) ch r2 fuel); auto.
    + rewrite Hlen. cbn [List.length].
      replace (S (List.length pre) + List.length r1 - 9)%nat
        with (List.length pre + S (List.length r1) - 9)%nat by lia.
      reflexivity.
    + rewrite Hlen. exact Hring'.
    + simpl in Hf. lia.
Qed.

Lemma source_loop_miss (content : list ascii) (CADR : string)
  (cs : list (list ascii)) (Hch : chunked content cs)
  (r : list (list ascii)) :
  forall pre fuel e fo,
    cs = pre ++ r ->
    Forall (fun x => source_hit CADR x = false) r ->
    (e = true -> r = []) ->
    (List.length r + 1 < fuel)%nat ->
    source_loop fuel content CADR
      (mkSource (offset cs (List.length pre)) e (List.length pre mod 10) fo
                false 0 [])
    = Some [].
Proof.
  induction r as [|x r IH]; intros pre fuel e fo Hcs Hmiss He Hf;
    (destruct fuel as [|fuel]; [simpl in Hf; lia|]);
    cbn [source_loop src_eof src_found src_pos src_op src_foffset src_lines
         src_shown];
    pose proof (chunked_suffix _ _ Hch (List.length pre)) as Hsuf;
    rewrite Hcs in Hsuf at 2;
    rewrite skipn_app, skipn_all, Nat.sub_diag in Hsuf;
    cbn [app skipn] in Hsuf.
  - destruct e; [reflexivity|].
    rewrite (chunked_nil_inv _ Hsuf). cbn [fgets_read].
    destruct fuel as [|fuel]; [simpl in Hf; lia|]. reflexivity.
  - destruct e; [discriminate (He eq_refl)|].
    remember (skipn (offset cs (List.length pre)) content) as input
      eqn:Hinput.
    inversion Hsuf as [|c l chunk rest e' cs' Hread Hrest Hl Hcs'].
    rewrite Hread.
    destruct (fgets_read_spec _ _ _ _ _ Hread) as (Happ & Heof & Hne).
    destruct x as [|c0 x];
      [exfalso; apply Hne; [discriminate|lia|reflexivity]|].
    apply Forall_cons_iff in Hmiss. destruct Hmiss as [Hx Hmiss'].
    rewrite Hx, succ_mod10.
    assert (Hlen : List.length (pre ++ [c0 :: x]) = S (List.length pre))
      by (rewrite length_app; simpl; lia).
    assert (Hoff : (offset cs (List.length pre) + List.length (c0 :: x))%nat
                   = offset cs (S (List.length pre))).
    { rewrite Hcs. rewrite offset_succ. reflexivity. }
    rewrite Hoff, <- Hlen.
    apply IH.
    + rewrite Hcs, <- app_assoc. reflexivity.
    + exact Hmiss'.
    + intros Htrue. specialize (Heof Htrue). subst rest.
      apply chunked_inv_nil. exact Hrest.
    + simpl in Hf. lia.
Qed.

Lemma chunks_chunked (fuel : nat) :
  forall l, (List.length l <= fuel)%nat -> chunked l (chunks fuel l).
Proof.
  induction fuel as [|fuel IH]; intros l Hl.
  - destruct l; [constructor | simpl in Hl; lia].
  - destruct l as [|c l]; [constructor|].
    cbn [chunks].
    destruct (fgets_read 255 (c :: l)) as [[chunk rest] e] eqn:Hread.
    econstructor; [exact Hread|].
    destruct (fgets_read_spec _ _ _ _ _ Hread) as (Happ & _ & Hne).
    apply IH.
    assert (chunk <> []) by (apply Hne; [discriminate|lia]).
    apply (f_equal (@List.length ascii)) in Happ.
    rewrite length_app in Happ. simpl in Happ, Hl.
    destruct chunk; [contradiction|]. simpl in Happ. lia.
Qed.

Lemma chunked_length (l : list ascii) (cs : list (list ascii)) :
  chunked l cs -> (List.length cs <= List.length l)%nat.
Proof.
  induction 1 as [|c l chunk rest e cs Hread Hcs IH]; [simpl; lia|].
  destruct (fgets_read_spec _ _ _ _ _ Hread) as (Happ & _ & Hne).
  assert (chunk <> []) by (apply Hne; [discriminate|lia]).
  rewrite Happ, length_app. destruct chunk; [contradiction|].
  simpl. lia.
Qed.

Lemma first_hit_split (CADR : string) (cs : list (list ascii)) (k : nat) :
  first_hit CADR cs k ->
  exists r1 ch r2,
    cs = r1 ++ ch :: r2 /\ List.length r1 = k
    /\ Forall (fun x => source_hit CADR x = false) r1
    /\ source_hit CADR ch = true.
Proof.
  intros [(ch & Hnth & Hhit) Hbefore].
  destruct (nth_error_split _ _ Hnth) as (r1 & r2 & Hcs & Hlen).
  exists r1, ch, r2. repeat split; auto.
  apply Forall_forall. intros x Hx.
  destruct (In_nth_error _ _ Hx) as [j Hj].
  apply (Hbefore j).
  - rewrite <- Hlen. apply nth_error_Some. rewrite Hj. discriminate.
  - rewrite Hcs, nth_error_app1; [exact Hj|].
    apply nth_error_Some. rewrite Hj. discriminate.
Qed.

Lemma format_05o_length (v : Z) :
  (0 <= v < 8 ^ 5)%Z -> List.length (format_05o v) = 5.
Proof.
  intros Hv. unfold format_05o.
  assert (Hu : to_unsigned v = v)
    by (apply Z.mod_small; change (8 ^ 5)%Z with 32768%Z in Hv; lia).
  rewrite Hu.
  destruct (octal_digits_spec 11 v []) as (ds & Heq & _ & _ & _ & Hlen).
  { lia. }
  { change (8 ^ Z.of_nat 11)%Z with 8589934592%Z.
    change (8 ^ 5)%Z with 32768%Z in Hv. lia. }
  rewrite app_nil_r in Heq. rewrite Heq, length_app, repeat_length.
  specialize (Hlen 5). change (8 ^ Z.of_nat 5)%Z with (8 ^ 5)%Z in Hlen.
  assert ((List.length ds <= 5)%nat) by (apply Hlen; lia). lia.
Qed.

Section Listing.

Context {Sub : Type} (E : Subsystems Sub).

Variable fopen : string -> option string.
Variable d : Driver Sub.
Variable contents : string.

Hypothesis name_fits : (String.length (filename d) <= 75)%nat.
Hypothesis opened : fopen (filename d ++ ".lst")%string = Some contents.
Hypothesis address_fits :
  (0 <= getEffectiveAddress E (sub (agc d)) < 8 ^ 5)%Z.

Let CADR : string :=
  string_of_list_ascii (format_05o (getEffectiveAddress E (sub (agc d)))).
Let cs := file_chunks contents.

Lemma showSourceCode_loop (fuel : nat) :
  showSourceCode E fopen fuel d
  = match source_loop fuel (list_ascii_of_string contents) CADR
                      source_start with
    | Some t => Listed (EvPrint newline :: t)
    | None => Unended
    end.
Proof.
  unfold showSourceCode.
  replace (Nat.ltb 75 (String.length (filename d))) with false
    by (symmetry; apply Nat.ltb_ge; exact name_fits).
  rewrite opened, format_05o_length by exact address_fits.
  reflexivity.
Qed.

Lemma file_chunks_chunked : chunked (list_ascii_of_string contents) cs.
Proof. apply chunks_chunked. lia. Qed.

(** X18: [showSourceCode] finds the first line of the listing whose first
    five characters are the effective address in octal, and displays the
    23 lines that start nine lines before it (from the first line of the
    file when it is among the first nine, and fewer when the file ends
    sooner), each cut to 79 characters and marked with [>] when it
    carries the address. *)
Theorem showSourceCode_window (k fuel : nat) :
  first_hit CADR cs k ->
  (2 * String.length contents + 4 <= fuel)%nat ->
  showSourceCode E fopen fuel d
  = Listed (EvPrint newline
            :: flat_map (source_line CADR) (firstn 23 (skipn (k - 9) cs))).
Proof.
  intros Hhit Hfuel. rewrite showSourceCode_loop.
  destruct (first_hit_split _ _ _ Hhit) as (r1 & ch & r2 & Hcs & Hk & Hr1 & Hch).
  pose proof file_chunks_chunked as Hchunked.
  pose proof (chunked_length _ _ Hchunked) as Hlen.
  assert (Hl : List.length (list_ascii_of_string contents)
               = String.length contents).
  { clear. induction contents; simpl; auto. }
  pose proof (source_loop_search _ CADR cs Hchunked r1 [] ch r2 fuel
                (fun _ => 0%nat) Hcs Hr1 Hch (ring_start cs)) as Hsearch.
  change (mkSource _ _ _ _ _ _ _) with source_start in Hsearch.
  cbn [List.length Nat.add] in Hsearch.
  rewrite Hsearch, Hk; [reflexivity|].
  assert (List.length r1 <= List.length cs)%nat
    by (rewrite Hcs, length_app; lia).
  lia.
Qed.

(** X19: when no line of the listing starts with the address,
    [showSourceCode] reads the file to its end and displays nothing. *)
Theorem showSourceCode_miss (fuel : nat) :
  Forall (fun x => source_hit CADR x = false) cs ->
  (String.length contents + 2 <= fuel)%nat ->
  showSourceCode E fopen fuel d = Listed [EvPrint newline].
Proof.
  intros Hmiss Hfuel. rewrite showSourceCode_loop.
  pose proof file_chunks_chunked as Hchunked.
  pose proof (chunked_length _ _ Hchunked) as Hlen.
  assert (Hl : List.length (list_ascii_of_string contents)
               = String.length contents).
  { clear. induction contents; simpl; auto. }
  pose proof (source_loop_miss _ CADR cs Hchunked cs [] fuel false
                (fun _ => 0%nat) eq_refl Hmiss) as Hloop.
  change (mkSource _ _ _ _ _ _ _) with source_start in Hloop.
  rewrite Hloop; [reflexivity|discriminate|lia].
Qed.

End Listing.

Lemma showSourceCode_window_witness :
  showSourceCode Mini.E lst_files 50 Mini.driver
  = Listed [EvPrint newline;
            EvPrint " "; EvPrint ("00017 XCH" ++ newline);
            EvPrint ">"; EvPrint ("00000 TC" ++ newline)].
Proof.
  apply (showSourceCode_window Mini.E lst_files Mini.driver
           ("00017 XCH" ++ newline ++ "00000 TC" ++ newline)
           ltac:(simpl; lia) eq_refl ltac:(simpl; lia) 1 50).
  - split.
    + eexists. split; reflexivity.
    + intros j chunk Hj. destruct j as [|j]; [|lia].
      intros [= <-]. reflexivity.
  - simpl. lia.
Defined.

Lemma showSourceCode_miss_witness :
  showSourceCode Mini.E lst_files 30 (set_filename "x" Mini.driver)
  = Listed [EvPrint newline].
Proof.
  apply (showSourceCode_miss Mini.E lst_files (set_filename "x" Mini.driver)
           ("00017 XCH" ++ newline ++ "00020 TC")
           ltac:(simpl; lia) eq_refl ltac:(simpl; lia) 30).
  - repeat constructor.
  - simpl. lia.
Defined.

Local Close Scope nat_scope.

(** ** Loading an object file *)

Section LoadingRecords.

Context {Sub : Type} (E : Subsystems Sub).

Lemma load_record_lines (records : list (Z * Z)) :
  forall fuel ws a0 d0 m,
    (List.length records < fuel)%nat ->
    forallb is_space ws = true ->
    Forall unsigned_pair records ->
    load_records E fuel (ws ++ record_lines records) a0 d0 m
    = Some (map (fun r => EvWriteMemory (fst r) (snd r)) records,
            fold_left (fun m r => writeMemory E (fst r) (snd r) m)
                      records m).
Proof.
  induction records as [|[a v] records IH]; intros fuel ws a0 d0 m Hf Hws Hu;
    (destruct fuel as [|fuel]; [simpl in Hf; lia|]);
    cbn [load_records record_lines flat_map].
  - rewrite app_nil_r. unfold fscanf_o_o, scan_o.
    rewrite <- (app_nil_r ws), skip_space_spaces by exact Hws.
    reflexivity.
  - apply Forall_cons_iff in Hu. destruct Hu as [[Ha Hv] Hu].
    cbn [fst snd] in *.
    rewrite fscanf_record by assumption.
    change (2 =? EOF) with false. cbv iota.
    change (newline_char
            :: flat_map (fun r => format_record (fst r) (snd r)) records)
      with ([newline_char] ++ record_lines records).
    rewrite IH; [reflexivity|simpl in Hf; lia|reflexivity|exact Hu].
Qed.

(** X20: on an object file made of ["%06o %06o"] lines of [unsigned]
    values, the name typed fitting the buffer for the file name,
    [loadMemory] ends and calls [MEM::writeMemory] once per line, in the
    order of the file, with the address and the word of that line. *)
Theorem loadMemory_record_lines (fopen : string -> option string)
  (line : string) (records : list (Z * Z)) (a0 d0 : Z) (fuel : nat)
  (d : Driver Sub) :
  (String.length line <= 75)%nat ->
  fopen (line ++ ".obj")%string
  = Some (string_of_list_ascii (record_lines records)) ->
  Forall unsigned_pair records ->
  (List.length records < fuel)%nat ->
  loadMemory E fopen line a0 d0 fuel d
  = Loaded ([EvPrint newline]
            ++ map (fun r => EvWriteMemory (fst r) (snd r)) records
            ++ [EvPrint ("Memory loaded." ++ newline)])
           (set_agc (fold_left (fun m r => writeMemory E (fst r) (snd r) m)
                               records (agc d))
                    (set_filename line d)).
Proof.
  intros Hlen Hopen Hu Hfuel. unfold loadMemory.
  replace (Nat.ltb 75 (String.length line)) with false
    by (symmetry; apply Nat.ltb_ge; exact Hlen).
  rewrite Hopen, list_ascii_of_string_of_list_ascii.
  cbn [agc set_filename].
  pose proof (load_record_lines records fuel [] a0 d0 (agc d) Hfuel eq_refl
                Hu) as Hload.
  cbn [app] in Hload. rewrite Hload. reflexivity.
Qed.

(** A tick that leaves [RUN] at 0 is the last of its batch. *)
Lemma batch_halted (c : Z) (d : Driver Sub) :
  RUN (mon (agc (snd (tick E d)))) = 0 -> batch E c d = tick E d.
Proof.
  intros H. rewrite batch_step. unfold fast_running. rewrite H.
  cbn [truthy Z.eqb negb]. rewrite andb_false_r. reflexivity.
Qed.

Lemma breakpoint_check_halted (d : Driver Sub) :
  RUN (mon (agc d)) = 0 -> RUN (mon (agc (breakpoint_check E d))) = 0.
Proof.
  intros H. unfold breakpoint_check. destruct (_ && _); [reflexivity|exact H].
Qed.

(** X21: the inner loop is a [do ... while]: with the machine halted
    ([RUN] at 0) a pass still clocks it, exactly once; and a tick at which
    the breakpoint address is met is the last tick of its pass, whatever
    the counter. *)
Theorem batch_one_tick_when_halted (c : Z) (d : Driver Sub) :
  (keeps_mon E -> RUN (mon (agc d)) = 0 ->
   batch E c d = tick E d
   /\ exists r alu or w,
       fst (batch E c d) = EvClk :: generate_trace r alu or w)
  /\ (breakpointEnab d = true ->
      breakpoint d
      = getEffectiveAddress E (sub (agc (snd (clock_and_generate E d)))) ->
      batch E c d = tick E d).
Proof.
  split.
  - intros Hk Hrun.
    assert (Hb : batch E c d = tick E d).
    { apply batch_halted. rewrite tick_snd.
      apply watch_check_halted, breakpoint_check_halted.
      rewrite clock_and_generate_mon by exact Hk. exact Hrun. }
    split; [exact Hb|]. rewrite Hb. apply tick_fst.
  - intros Hen Hbp. apply batch_halted. rewrite tick_snd.
    apply watch_check_halted. unfold breakpoint_check.
    rewrite clock_and_generate_snd in *.
    cbn [breakpointEnab breakpoint set_agc set_singleClock agc] in *.
    rewrite Hen, Hbp, Z.eqb_refl. reflexivity.
Qed.

End LoadingRecords.

Lemma loadMemory_record_lines_witness :
  loadMemory Mini.E teco_files "teco1" 0 0 3 Mini.driver
  = Loaded ([EvPrint newline]
            ++ map (fun r => EvWriteMemory (fst r) (snd r))
                   [(1024, 12345); (1025, 7)]
            ++ [EvPrint ("Memory loaded." ++ newline)])
           (set_agc (fold_left
                       (fun m r => writeMemory Mini.E (fst r) (snd r) m)
                       [(1024, 12345); (1025, 7)] (agc Mini.driver))
                    (set_filename "teco1" Mini.driver)).
Proof.
  apply (loadMemory_record_lines Mini.E teco_files "teco1"
           [(1024, 12345); (1025, 7)] 0 0 3 Mini.driver).
  - simpl. lia.
  - reflexivity.
  - repeat constructor; cbn [fst snd]; lia.
  - simpl. lia.
Defined.

Lemma batch_one_tick_when_halted_witness :
  batch Mini.E 100 Mini.stepping = tick Mini.E Mini.stepping
  /\ batch Mini.E 100 Mini.armed = tick Mini.E Mini.armed.
Proof.
  destruct (batch_one_tick_when_halted Mini.E 100 Mini.stepping)
    as [Hhalt _].
  destruct (batch_one_tick_when_halted Mini.E 100 Mini.armed) as [_ Hbp].
  split.
  - apply Hhalt; [exact Mini_keeps_mon | reflexivity].
  - apply Hbp; [reflexivity | vm_compute; reflexivity].
Defined.

(** ** One pulse list for the four sweeps *)

Section SharedList.

Context {Sub : Type} (E : Subsystems Sub).

Lemma run_pulses_keeps (h : cpType -> AGC Sub -> AGC Sub) (l : list cpType) :
  keeps_cp h -> forall s, glbl_cp (run_pulses h l s) = glbl_cp s.
Proof.
  intros Hk. induction l as [|p l IH]; intros s; cbn [run_pulses fold_left].
  - reflexivity.
  - fold (run_pulses h l (h p s)). rewrite IH. apply Hk.
Qed.

Lemma dispatched_issued (h : cpType -> AGC Sub -> AGC Sub) (left : nat) :
  keeps_cp h ->
  forall i s,
    dispatched E h left i s = issued (NO_PULSE E) (glbl_cp s) left i.
Proof.
  intros Hk. induction left as [|left IH]; intros i s; simpl.
  - reflexivity.
  - destruct (glbl_cp s i =? NO_PULSE E); [reflexivity|].
    rewrite IH, Hk. reflexivity.
Qed.

(** X22: when the handlers of the four sweeps leave [glbl_cp] alone, the
    four sweeps of a call dispatch the same pulses: the cells of the list
    the pulse matrix has left, from cell 0 up to its first [NO_PULSE], or
    its first [MAXPULSES] cells when none of them is [NO_PULSE]. *)
Theorem sweeps_share_pulse_list (s : AGC Sub) :
  keeps_cp (doexecR E) -> keeps_cp (doexecR_ALU E) ->
  keeps_cp (doexecR_ALU_OR E) -> keeps_cp (doexecW E) ->
  let cp := glbl_cp (controlPulseMatrix E s) in
  exists k,
    (k <= MAXPULSES E)%nat
    /\ (forall j, (j < k)%nat -> cp j <> NO_PULSE E)
    /\ ((k < MAXPULSES E)%nat -> cp k = NO_PULSE E)
    /\ let pulses := map cp (List.seq 0 k) in
       let s1 := set_MEM_PARITY_BUS 0 (set_MEM_DATA_BUS 0 (set_READ_BUS 0
                   (controlPulseMatrix E s))) in
       let s2 := set_ALU_BUS 0 (run_pulses (doexecR E) pulses s1) in
       let s3 := run_pulses (doexecR_ALU E) pulses s2 in
       let s4 := set_WRITE_BUS (glbl_READ_BUS s3) s3 in
       let s5 := run_pulses (doexecR_ALU_OR E) pulses s4 in
       let s6 := run_pulses (doexecW E) pulses s5 in
       genAGCStates E s
       = ([EvCPM] ++ map EvR pulses ++ map EvR_ALU pulses
          ++ map EvR_ALU_OR pulses ++ map EvW pulses
          ++ [EvWP_SCL; EvWP_F17; EvWP_F13; EvWP_F10; EvWP_TPG],
          doexecWP_TPG E (doexecWP_F10 E (doexecWP_F13 E (doexecWP_F17 E
            (doexecWP_SCL E s6))))).
Proof.
  intros HR HALU HOR HW cp.
  destruct (issued_cells (NO_PULSE E) cp (MAXPULSES E) 0)
    as (Hl & Hne & Hle & Hend).
  set (pulses := issued (NO_PULSE E) cp (MAXPULSES E) 0) in *.
  exists (List.length pulses).
  split; [exact Hle|]. split; [exact Hne|]. split; [exact Hend|].
  rewrite <- Hl. cbv zeta.
  pose proof (genAGCStates_run E s) as Hrun. cbv zeta in Hrun.
  set (s1 := set_MEM_PARITY_BUS 0 (set_MEM_DATA_BUS 0 (set_READ_BUS 0
               (controlPulseMatrix E s)))) in *.
  assert (H1 : glbl_cp s1 = cp) by reflexivity.
  rewrite (dispatched_issued (doexecR E) _ HR), H1 in Hrun.
  fold pulses in Hrun.
  set (s2 := set_ALU_BUS 0 (run_pulses (doexecR E) pulses s1)) in *.
  assert (H2 : glbl_cp s2 = cp).
  { unfold s2. cbn [set_ALU_BUS glbl_cp].
    rewrite run_pulses_keeps by exact HR. exact H1. }
  rewrite (dispatched_issued (doexecR_ALU E) _ HALU), H2 in Hrun.
  fold pulses in Hrun.
  set (s3 := run_pulses (doexecR_ALU E) pulses s2) in *.
  set (s4 := set_WRITE_BUS (glbl_READ_BUS s3) s3) in *.
  assert (H4 : glbl_cp s4 = cp).
  { unfold s4, s3. cbn [set_WRITE_BUS glbl_cp].
    rewrite run_pulses_keeps by exact HALU. exact H2. }
  rewrite (dispatched_issued (doexecR_ALU_OR E) _ HOR), H4 in Hrun.
  fold pulses in Hrun.
  set (s5 := run_pulses (doexecR_ALU_OR E) pulses s4) in *.
  assert (H5 : glbl_cp s5 = cp).
  { unfold s5. rewrite run_pulses_keeps by exact HOR. exact H4. }
  rewrite (dispatched_issued (doexecW E) _ HW), H5 in Hrun.
  fold pulses in Hrun.
  exact Hrun.
Qed.

End SharedList.

Lemma sweeps_share_pulse_list_witness :
  let cp := glbl_cp (controlPulseMatrix Mini.E Mini.machine) in
  exists k,
    (k <= MAXPULSES Mini.E)%nat
    /\ (forall j, (j < k)%nat -> cp j <> NO_PULSE Mini.E)
    /\ ((k < MAXPULSES Mini.E)%nat -> cp k = NO_PULSE Mini.E)
    /\ let pulses := map cp (List.seq 0 k) in
       fst (genAGCStates Mini.E Mini.machine)
       = [EvCPM] ++ map EvR pulses ++ map EvR_ALU pulses
         ++ map EvR_ALU_OR pulses ++ map EvW pulses
         ++ [EvWP_SCL; EvWP_F17; EvWP_F13; EvWP_F10; EvWP_TPG].
Proof.
  destruct (sweeps_share_pulse_list Mini.E Mini.machine
              (proj1 Mini_keeps_cp) (proj1 (proj2 Mini_keeps_cp))
              (proj1 (proj2 (proj2 Mini_keeps_cp)))
              (proj2 (proj2 (proj2 Mini_keeps_cp))))
    as (k & Hk & Hne & Hend & H).
  exists k. split; [exact Hk|]. split; [exact Hne|]. split; [exact Hend|].
  cbv zeta in *. rewrite H. reflexivity.
Defined.
